(** * fix-links.js: anchor sanitising, rel hardening and click dispatch

    A shallow embedding of [src/fix-links-1.js].  Attribute values are
    strings of 8-bit code units; an anchor is its attribute map, its class
    list and the listeners this script registered on it.  The click handler
    is written with completion records, so that [return], [try]/[catch] and
    fall-through between the [if] statements read as in the source. *)

From Stdlib Require Import Ascii String NArith ZArith.
From stdpp Require Import base gmap strings list.

Local Open Scope string_scope.

(** ** String primitives of the host language *)

Module Js.

(** Code units in the range 0..255.  On this range [String.prototype.trim]
    and the regular expression class [\s] see the same white space: TAB, LF,
    VT, FF, CR, SP and NBSP. *)
Definition isWhiteSpace (c : ascii) : bool :=
  let n := N_of_ascii c in
  ((9 <=? n) && (n <=? 13) || (n =? 32) || (n =? 160))%N.

(** [toLowerCase] on one code unit: A-Z and the Latin-1 capitals
    (U+00C0..U+00DE without the multiplication sign U+00D7) move up by 32. *)
Definition lowerChar (c : ascii) : ascii :=
  let n := N_of_ascii c in
  if ((65 <=? n) && (n <=? 90)
      || (192 <=? n) && (n <=? 222) && negb (n =? 215))%N
  then ascii_of_N (n + 32) else c.

Fixpoint toLowerCase (s : string) : string :=
  match s with
  | EmptyString => EmptyString
  | String c s' => String (lowerChar c) (toLowerCase s')
  end.

Fixpoint trimStart (s : string) : string :=
  match s with
  | EmptyString => EmptyString
  | String c s' => if isWhiteSpace c then trimStart s' else s
  end.

Fixpoint trimEnd (s : string) : string :=
  match s with
  | EmptyString => EmptyString
  | String c s' =>
      match trimEnd s' with
      | EmptyString => if isWhiteSpace c then EmptyString else String c EmptyString
      | r => String c r
      end
  end.

Definition trim (s : string) : string := trimEnd (trimStart s).

(** [s.split(/\s+/)]: the separators are the maximal runs of white space;
    a run at either end of [s] leaves an empty piece there, and the empty
    string splits into one empty piece.  [in_sep] says that the previous
    code unit belonged to a separator, [cur] is the piece read so far. *)
Fixpoint split_go (in_sep : bool) (cur : string) (s : string) : list string :=
  match s with
  | EmptyString => [cur]
  | String c s' =>
      if isWhiteSpace c
      then if in_sep then split_go true cur s'
           else cur :: split_go true EmptyString s'
      else split_go false (cur +:+ String c EmptyString) s'
  end.

Definition split_ws (s : string) : list string := split_go false EmptyString s.

(** The callback [Boolean] of [filter(Boolean)] on strings. *)
Definition truthy (s : string) : bool :=
  match s with EmptyString => false | _ => true end.

(** [Array.prototype.join]. *)
Fixpoint join (sep : string) (l : list string) : string :=
  match l with
  | [] => EmptyString
  | [x] => x
  | x :: l' => x +:+ sep +:+ join sep l'
  end.

(** A [Set] of strings, as the list of its members in insertion order. *)
Definition set_add (have : list string) (x : string) : list string :=
  if decide (x ∈ have) then have else have ++ [x].

Definition set_from (l : list string) : list string := foldl set_add [] l.

End Js.

(** ** Anchors *)

(** The two listeners [attachHandler] registers.  Every call creates fresh
    function objects, so [addEventListener] never recognises a listener it
    has seen before and always appends. *)
Inductive Listener := ClickDispatch | KeydownEnter.

Record Anchor := mkAnchor {
  attrs : gmap string string;
  classList : list string;
  listeners : list Listener
}.

Definition getAttribute (name : string) (a : Anchor) : option string :=
  attrs a !! name.

Definition setAttribute (name value : string) (a : Anchor) : Anchor :=
  mkAnchor (<[name := value]> (attrs a)) (classList a) (listeners a).

Definition addEventListener (l : Listener) (a : Anchor) : Anchor :=
  mkAnchor (attrs a) (classList a) (listeners a ++ [l]).

Definition contains (c : string) (a : Anchor) : bool :=
  bool_decide (c ∈ classList a).

(** [x || ''] for an attribute value [x]. *)
Definition or_empty (x : option string) : string := default "" x.

Definition INVALID_HREFS : list string :=
  [""; "#"; "javascript:void(0)"; "javascript:void(0);"; "void(0)"].

Definition BUTTONY_CLASSES : list string :=
  ["darkmode_switchbutton"; "asideSwitch"; "commentBarrage";
   "console_switchbutton"; "banner-button"; "totopbtn";
   "randomPost_button"; "randomPost"; "site-page"].

Definition needed : list string := ["noopener"; "noreferrer"].

(** The tokens of a [rel] value as [hardenRel] reads them. *)
Definition rel_tokens (rel : string) : list string :=
  filter (fun x => Js.truthy x = true) (Js.split_ws rel).

Definition hardenRel (a : Anchor) : Anchor :=
  let t := Js.toLowerCase (or_empty (getAttribute "target" a)) in
  if decide (t = "_blank") then
    let rel := Js.toLowerCase (or_empty (getAttribute "rel" a)) in
    let have := Js.set_from (rel_tokens rel) in
    let have := foldl Js.set_add have needed in
    setAttribute "rel" (Js.join " " have) a
  else a.

Definition makeButtonLike (a : Anchor) : Anchor :=
  setAttribute "tabindex" "0"
    (setAttribute "role" "button" (setAttribute "href" "#" a)).

Definition attachHandler (a : Anchor) : Anchor :=
  addEventListener KeydownEnter (addEventListener ClickDispatch a).

Definition rawHref (a : Anchor) : string :=
  Js.toLowerCase (Js.trim (or_empty (getAttribute "href" a))).

(** [!!a.getAttribute('onclick')]: an absent attribute and an empty value
    are both falsy. *)
Definition hasOnclick (a : Anchor) : bool :=
  Js.truthy (or_empty (getAttribute "onclick" a)).

Definition isInvalidHref (a : Anchor) : bool :=
  negb (Js.truthy (rawHref a)) || bool_decide (rawHref a ∈ INVALID_HREFS).

Definition isButtony (a : Anchor) : bool :=
  existsb (fun c => contains c a) BUTTONY_CLASSES.

Definition sanitizeOne (a0 : Anchor) : Anchor :=
  let invalid := isInvalidHref a0 in
  let onclick := hasOnclick a0 in
  let a := hardenRel a0 in
  if invalid || onclick then
    if isButtony a then attachHandler (makeButtonLike a)
    else if invalid then setAttribute "href" "#current" a
    else a
  else a.

(** [document.querySelectorAll('a').forEach(sanitizeOne)]: the document is
    the list of its anchors in document order. *)
Definition run (doc : list Anchor) : list Anchor := map sanitizeOne doc.

(** ** The page and the host *)

(** What a click can change outside the anchor: the address of the page,
    the scroll offsets, and the state the theme's own scripts keep (here a
    log they may write to). *)
Record Page := mkPage {
  location_href : string;
  scroll_left : Z;
  scroll_top : Z;
  theme_log : list string
}.

(** A call either returns or throws; both leave a page behind. *)
Inductive Outcome := Returned (p : Page) | Threw (p : Page).

Definition outcome_page (o : Outcome) : Page :=
  match o with Returned p | Threw p => p end.

(** A zero-argument function of the host or of the theme.  A property that
    holds a truthy value which is not callable behaves as a function that
    throws at once. *)
Definition ExtFn : Type := Page -> Outcome.

Inductive ScrollArg :=
| ScrollOptions (top : Z) (smooth : bool)
| ScrollXY (x y : Z).

Record NavFn := mkNavFn {
  nav_switchDarkMode : option ExtFn;
  nav_switcharMode : option ExtFn
}.

Record Heo := mkHeo {
  heo_switchDarkMode : option ExtFn;
  heo_showConsole : option ExtFn;
  heo_hideConsole : option ExtFn;
  heo_toggleCommentBarrage : option ExtFn
}.

(** The global object as the handlers read it.  [None] is a property that
    is missing or falsy.  [scrollTo], the setter of [location.href] and the
    default action of a click on a hyperlink belong to the host. *)
Record Window := mkWindow {
  navFn : option NavFn;
  heo : option Heo;
  switchDarkMode : option ExtFn;
  switchCommentBarrage : option ExtFn;
  toRandomPost : option ExtFn;
  scrollTo : ScrollArg -> ExtFn;
  set_location_href : string -> ExtFn;
  follow_hyperlink : string -> Page -> Page
}.

(** ** Statements with completion records *)

(** The state a listener works on: the page and the event's
    [defaultPrevented] flag. *)
Record St := mkSt { page : Page; defaultPrevented : bool }.

Inductive Completion := Normal (s : St) | Return (s : St) | Throw (s : St).

Definition Stmt : Type := St -> Completion.

Definition skip : Stmt := Normal.
Definition ret : Stmt := Return.

Definition seq (s1 s2 : Stmt) : Stmt :=
  fun s => match s1 s with Normal s' => s2 s' | c => c end.

Declare Scope stmt_scope.
Delimit Scope stmt_scope with stmt.
Bind Scope stmt_scope with Stmt.
Notation "s1 >>> s2" := (seq s1 s2)
  (at level 65, right associativity) : stmt_scope.
Local Open Scope stmt_scope.

Definition If (b : bool) (body : Stmt) : Stmt := if b then body else skip.

Definition try_catch (body handler : Stmt) : Stmt :=
  fun s => match body s with Throw s' => handler s' | c => c end.

Definition call (f : ExtFn) : Stmt :=
  fun s => match f (page s) with
           | Returned p => Normal (mkSt p (defaultPrevented s))
           | Threw p => Throw (mkSt p (defaultPrevented s))
           end.

(** [if (x) return void x();] *)
Definition return_call_if (x : option ExtFn) : Stmt :=
  match x with Some f => call f >>> ret | None => skip end.

Definition preventDefault : Stmt := fun s => Normal (mkSt (page s) true).

(** What a function call makes of the completion of its body. *)
Inductive FnResult := Done (s : St) | Raised (s : St).

Definition result_state (r : FnResult) : St :=
  match r with Done s | Raised s => s end.

Definition run_body (body : Stmt) (s : St) : FnResult :=
  match body s with
  | Normal s' | Return s' => Done s'
  | Throw s' => Raised s'
  end.

(** ** The click listener of [attachHandler] *)

Section Handlers.
Variable win : Window.

Definition darkmode_branch : Stmt :=
  try_catch
    (return_call_if (navFn win ≫= nav_switchDarkMode) >>>
     return_call_if (navFn win ≫= nav_switcharMode) >>>
     return_call_if (heo win ≫= heo_switchDarkMode) >>>
     return_call_if (switchDarkMode win))
    skip >>>
  ret.

Definition asideSwitch_branch : Stmt :=
  try_catch (return_call_if (heo win ≫= heo_showConsole)) skip >>> ret.

Definition consoleSwitch_branch : Stmt :=
  try_catch
    (return_call_if (heo win ≫= heo_showConsole) >>>
     return_call_if (heo win ≫= heo_hideConsole))
    skip >>>
  ret.

Definition bannerButton_branch : Stmt := ret.

Definition commentBarrage_branch : Stmt :=
  try_catch
    (return_call_if (switchCommentBarrage win) >>>
     return_call_if (heo win ≫= heo_toggleCommentBarrage))
    skip >>>
  ret.

Definition totop_branch : Stmt :=
  try_catch (call (scrollTo win (ScrollOptions 0 true)))
            (call (scrollTo win (ScrollXY 0 0))) >>>
  ret.

Definition randomPost_branch : Stmt :=
  try_catch
    (return_call_if (toRandomPost win) >>>
     call (set_location_href win "/archives/"))
    skip >>>
  ret.

Definition sitePage_branch : Stmt := ret.

Definition prevent_step (a : Anchor) : Stmt :=
  If (bool_decide (or_empty (getAttribute "href" a) = "#")) preventDefault.

Definition click_body (a : Anchor) : Stmt :=
  prevent_step a >>>
  If (contains "darkmode_switchbutton" a) darkmode_branch >>>
  If (contains "asideSwitch" a) asideSwitch_branch >>>
  If (contains "console_switchbutton" a) consoleSwitch_branch >>>
  If (contains "banner-button" a) bannerButton_branch >>>
  If (contains "commentBarrage" a) commentBarrage_branch >>>
  If (contains "totopbtn" a) totop_branch >>>
  If (contains "randomPost" a || contains "randomPost_button" a)
     randomPost_branch >>>
  If (contains "site-page" a) sitePage_branch.

Definition click_handler (a : Anchor) (s : St) : FnResult :=
  run_body (click_body a) s.

(** Dispatch of one click event on the anchor: the listeners run in the
    order of their registration on one event object, an error a listener
    raises is reported by the host and does not stop the dispatch, and the
    hyperlink is followed afterwards unless the default was prevented. *)
Definition run_click_listener (a : Anchor) (s : St) (l : Listener) : St :=
  match l with
  | ClickDispatch => result_state (click_handler a s)
  | KeydownEnter => s
  end.

Definition dispatch_click (a : Anchor) (p : Page) : Page :=
  let s := foldl (run_click_listener a) (mkSt p false) (listeners a) in
  if defaultPrevented s then page s
  else match getAttribute "href" a with
       | Some h => follow_hyperlink win h (page s)
       | None => page s
       end.

(** The keydown listener: [a.click()] dispatches a click at once. *)
Definition keydown_handler (a : Anchor) (key : string) (p : Page) : Page :=
  if bool_decide (key = "Enter")
     && bool_decide (or_empty (getAttribute "href" a) = "#")
  then dispatch_click a p else p.

End Handlers.

(** ** The dispatch order in the words of the specification *)

Inductive BehaviorTag :=
| darkmode | asideSwitch | consoleSwitch | bannerButton
| commentBarrage | totop | randomPost | sitePage.

Definition priority : list BehaviorTag :=
  [darkmode; asideSwitch; consoleSwitch; bannerButton;
   commentBarrage; totop; randomPost; sitePage].

Definition tag_classes (t : BehaviorTag) : list string :=
  match t with
  | darkmode => ["darkmode_switchbutton"]
  | asideSwitch => ["asideSwitch"]
  | consoleSwitch => ["console_switchbutton"]
  | bannerButton => ["banner-button"]
  | commentBarrage => ["commentBarrage"]
  | totop => ["totopbtn"]
  | randomPost => ["randomPost"; "randomPost_button"]
  | sitePage => ["site-page"]
  end.

Definition tag_matches (a : Anchor) (t : BehaviorTag) : bool :=
  existsb (fun c => contains c a) (tag_classes t).

Definition first_tag (a : Anchor) : option BehaviorTag :=
  List.find (tag_matches a) priority.

Definition branch (win : Window) (t : BehaviorTag) : Stmt :=
  match t with
  | darkmode => darkmode_branch win
  | asideSwitch => asideSwitch_branch win
  | consoleSwitch => consoleSwitch_branch win
  | bannerButton => bannerButton_branch
  | commentBarrage => commentBarrage_branch win
  | totop => totop_branch win
  | randomPost => randomPost_branch win
  | sitePage => sitePage_branch
  end.

(** First matching tag wins: the prevention step, then the branch of the
    first tag in priority order that the class list matches, alone. *)
Definition dispatch_spec (win : Window) (a : Anchor) : Stmt :=
  prevent_step a >>>
  match first_tag a with Some t => branch win t | None => skip end.

(** ** Predicates of the statements *)

Fixpoint all_chars (P : ascii -> Prop) (s : string) : Prop :=
  match s with
  | EmptyString => True
  | String c s' => P c /\ all_chars P s'
  end.

(** A token of a [rel] value: not empty and free of white space. *)
Definition is_token (t : string) : Prop :=
  t <> "" /\ all_chars (fun c => Js.isWhiteSpace c = false) t.

Definition is_lower (t : string) : Prop :=
  all_chars (fun c => Js.lowerChar c = c) t.

(** The token list [hardenRel] writes back for a [rel] value. *)
Definition hardened (rel : string) : list string :=
  foldl Js.set_add (Js.set_from (rel_tokens (Js.toLowerCase rel))) needed.

(** The category conditions in the words of the specification. *)
Definition invalid_href (a : Anchor) : Prop :=
  rawHref a = "" \/ rawHref a ∈ INVALID_HREFS.

Definition has_button_class (a : Anchor) : Prop :=
  exists c, c ∈ BUTTONY_CLASSES /\ c ∈ classList a.

Definition has_onclick (a : Anchor) : Prop :=
  exists v, getAttribute "onclick" a = Some v /\ v <> "".

(** A rewrite candidate: the href is invalid or there is an onclick. *)
Definition rewrite_candidate (a : Anchor) : Prop :=
  invalid_href a \/ has_onclick a.

(** The listeners a pass registers on an anchor. *)
Definition bound_by_pass (a : Anchor) : list Listener :=
  if (isInvalidHref a || hasOnclick a) && isButtony a
  then [ClickDispatch; KeydownEnter] else [].

(** A statement that never completes normally: control does not reach what
    follows it. *)
Definition leaves (b : Stmt) : Prop :=
  forall s, (exists s', b s = Return s') \/ (exists s', b s = Throw s').

Definition returns (b : Stmt) : Prop := forall s, exists s', b s = Return s'.

(** The instant form of the host's [scrollTo] works. *)
Definition instant_scroll_works (win : Window) : Prop :=
  forall p, exists p', scrollTo win (ScrollXY 0 0) p = Returned p'.

Definition completion_state (c : Completion) : St :=
  match c with Normal s | Return s | Throw s => s end.

Definition keeps_location (f : ExtFn) : Prop :=
  forall p, location_href (outcome_page (f p)) = location_href p.

Definition opt_keeps_location (x : option ExtFn) : Prop :=
  forall f, x = Some f -> keeps_location f.

(** A statement that changes neither the address nor the event's flag. *)
Definition quiet (b : Stmt) : Prop :=
  forall s,
    location_href (page (completion_state (b s))) = location_href (page s) /\
    defaultPrevented (completion_state (b s)) = defaultPrevented s.

(** ** Sample hosts and anchors *)

(** The scroll API and the navigation of a browser. *)
Definition host_scrollTo (arg : ScrollArg) : ExtFn :=
  fun p => match arg with
           | ScrollOptions top _ =>
               Returned (mkPage (location_href p) (scroll_left p) top (theme_log p))
           | ScrollXY x y => Returned (mkPage (location_href p) x y (theme_log p))
           end.

Definition host_navigate (url : string) : Page -> Page :=
  fun p => mkPage url (scroll_left p) (scroll_top p) (theme_log p).

(** A browser with no theme functions installed. *)
Definition bare_window : Window :=
  mkWindow None None None None None host_scrollTo
           (fun url p => Returned (host_navigate url p)) host_navigate.

(** A theme function that records its call in the theme's state. *)
Definition logging (name : string) : ExtFn :=
  fun p => Returned (mkPage (location_href p) (scroll_left p) (scroll_top p)
                            (name :: theme_log p)).

(** A function that throws at once. *)
Definition throwing : ExtFn := Threw.

Definition page0 : Page := mkPage "https://blog.example/post/" 0 120 [].

Definition mk (kvs : list (string * string)) (cls : list string) : Anchor :=
  mkAnchor (list_to_map kvs) cls [].

Definition a_nofollow : Anchor :=
  mk [("target", "_blank"); ("rel", "NoFollow")] [].

Definition a_noopener : Anchor :=
  mk [("target", "_blank"); ("rel", "noopener")] [].

Definition a_void : Anchor := mk [("href", " JavaScript:Void(0); ")] ["menu"].

Definition a_onclick : Anchor := mk [("onclick", "openMenu()")] ["menu"].

Definition a_onclick_href : Anchor :=
  mk [("href", "/posts/1"); ("onclick", "track()")] ["menu"].

Definition a_post : Anchor := mk [("href", "/posts/1")] [].


Definition a_top : Anchor :=
  mk [("href", "javascript:void(0);")] ["totopbtn"].

Definition a_random : Anchor := mk [("href", "")] ["randomPost"].

Definition a_dark : Anchor := mk [] ["darkmode_switchbutton"].

Definition a_many : Anchor :=
  mk [("href", "#")] ["site-page"; "randomPost"; "asideSwitch"; "totopbtn"].

(** A theme with some of its functions present, one of them broken. *)
Definition themed_window : Window :=
  mkWindow (Some (mkNavFn None (Some (logging "navFn.switcharMode"))))
           (Some (mkHeo (Some throwing) (Some (logging "heo.showConsole"))
                        (Some (logging "heo.hideConsole")) None))
           (Some (logging "switchDarkMode")) None
           (Some (logging "toRandomPost"))
           host_scrollTo
           (fun url p => Returned (host_navigate url p)) host_navigate.

(** Every theme function throws, and so does smooth scrolling. *)
Definition failing_window : Window :=
  mkWindow (Some (mkNavFn (Some throwing) (Some throwing)))
           (Some (mkHeo (Some throwing) (Some throwing) (Some throwing)
                        (Some throwing)))
           (Some throwing) (Some throwing) (Some throwing)
           (fun arg => match arg with
                       | ScrollOptions _ _ => throwing
                       | ScrollXY _ _ => host_scrollTo arg
                       end)
           (fun _ => throwing) host_navigate.



(** ** Key presses *)

(** Dispatch of one keydown event: every keydown listener of the anchor
    runs; the click listeners do not hear it.  What the browser itself does
    with the key is not part of this script. *)
Definition run_keydown_listener (win : Window) (a : Anchor) (key : string)
    (p : Page) (l : Listener) : Page :=
  match l with
  | KeydownEnter => keydown_handler win a key p
  | ClickDispatch => p
  end.

Definition dispatch_keydown (win : Window) (a : Anchor) (key : string)
    (p : Page) : Page :=
  foldl (run_keydown_listener win a key) p (listeners a).


(** ** The optional functions a branch looks up *)



(** A statement that leaves the event's flag as it finds it. *)
Definition keeps_flag (b : Stmt) : Prop :=
  forall s, defaultPrevented (completion_state (b s)) = defaultPrevented s.

(** ** The document tree and the change watcher *)

(** ASCII case mapping, as the DOM uses it for tag names and selectors. *)
Definition ascii_upper_char (c : ascii) : ascii :=
  let n := N_of_ascii c in
  if ((97 <=? n) && (n <=? 122))%N then ascii_of_N (n - 32) else c.

Definition ascii_lower_char (c : ascii) : ascii :=
  let n := N_of_ascii c in
  if ((65 <=? n) && (n <=? 90))%N then ascii_of_N (n + 32) else c.

Fixpoint ascii_uppercase (s : string) : string :=
  match s with
  | EmptyString => EmptyString
  | String c s' => String (ascii_upper_char c) (ascii_uppercase s')
  end.

Fixpoint ascii_lowercase (s : string) : string :=
  match s with
  | EmptyString => EmptyString
  | String c s' => String (ascii_lower_char c) (ascii_lowercase s')
  end.

Inductive Namespace := HtmlNS | SvgNS | OtherNS (uri : string).

(** A node of the tree of an HTML document: a text node, or an element
    with its identity, its namespace, prefix and local name, and its
    children.  The state of every element lives in a store under the
    element's identity, so that two references to one element see the same
    attributes and listeners. *)
Local Set Warnings "-register-all".

Inductive Node :=
| TextNode (data : string)
| Element (id : nat) (ns : Namespace) (prefix : option string)
          (localName : string) (childNodes : list Node).

Definition nodeType (n : Node) : nat :=
  match n with TextNode _ => 3 | Element _ _ _ _ _ => 1 end.

Definition qualifiedName (prefix : option string) (localName : string)
    : string :=
  match prefix with
  | Some pre => pre +:+ ":" +:+ localName
  | None => localName
  end.

(** [element.tagName]: the qualified name, in ASCII upper case for an
    element in the HTML namespace. *)
Definition tagName (ns : Namespace) (prefix : option string)
    (localName : string) : string :=
  match ns with
  | HtmlNS => ascii_uppercase (qualifiedName prefix localName)
  | _ => qualifiedName prefix localName
  end.

(** A type selector on an element: the local name is compared with the
    selector's name, put in ASCII lower case first for an element in the
    HTML namespace; the namespace itself does not restrict the match. *)
Definition selector_matches (name : string) (ns : Namespace)
    (localName : string) : bool :=
  match ns with
  | HtmlNS => bool_decide (localName = ascii_lowercase name)
  | _ => bool_decide (localName = name)
  end.

(** The elements of a subtree that the selector ['a'] matches, in document
    order, the root included. *)
Fixpoint anchors_of (n : Node) : list nat :=
  match n with
  | TextNode _ => []
  | Element i ns _ l ch =>
      ((if selector_matches "a" ns l then [i] else [])
       ++ flat_map anchors_of ch)%list
  end.

(** [node.querySelectorAll('a')]: the matches below the node. *)
Definition querySelectorAll_a (n : Node) : list nat :=
  match n with
  | TextNode _ => []
  | Element _ _ _ _ ch => flat_map anchors_of ch
  end.

Definition sanitize_at (i : nat) (st : gmap nat Anchor) : gmap nat Anchor :=
  alter sanitizeOne i st.

(** [ids.forEach(sanitizeOne)] on the store. *)
Definition forEach_sanitizeOne (ids : list nat) (st : gmap nat Anchor)
    : gmap nat Anchor :=
  foldl (fun st i => sanitize_at i st) st ids.


(** What the observer does with one added node: the node itself if its
    tag name reads ["A"], then what the selector matches below it. *)
Definition on_added (node : Node) (st : gmap nat Anchor) : gmap nat Anchor :=
  match node with
  | TextNode _ => st
  | Element i ns pre l _ =>
      let st1 := if bool_decide (tagName ns pre l = "A")
                 then sanitize_at i st else st in
      forEach_sanitizeOne (querySelectorAll_a node) st1
  end.

Record MutationRecord := mkMutation { addedNodes : list Node }.

(** The callback of the [MutationObserver]. *)
Definition observer (muts : list MutationRecord) (st : gmap nat Anchor)
    : gmap nat Anchor :=
  foldl (fun st m => foldl (fun st n => on_added n st) st (addedNodes m))
        st muts.

(** The elements the observer passes to [sanitizeOne] for one added node,
    one entry per call. *)
Definition added_visits (node : Node) : list nat :=
  match node with
  | TextNode _ => []
  | Element i ns pre l _ =>
      ((if bool_decide (tagName ns pre l = "A") then [i] else [])
       ++ querySelectorAll_a node)%list
  end.


(** How often an identity occurs in a list of visits. *)
Fixpoint visits (i : nat) (ids : list nat) : nat :=
  match ids with
  | [] => 0
  | j :: ids' => (if decide (j = i) then 1 else 0) + visits i ids'
  end.

(** An SVG link, as the parser builds it inside an [svg] element. *)
Definition svg_link : Node := Element 17 SvgNS None "a" [TextNode "Map"].

(** A card inserted after load: a heading, a plain link, a button and a
    drawing with a link of its own. *)
Definition card : Node :=
  Element 10 HtmlNS None "div"
    [Element 11 HtmlNS None "h2" [TextNode "More"];
     Element 12 HtmlNS None "a" [TextNode "Post"];
     Element 13 HtmlNS None "p"
       [Element 14 HtmlNS None "a"
          [Element 15 HtmlNS None "span" [TextNode "Top"]]];
     Element 16 SvgNS None "svg" [svg_link]].

Definition card_store : gmap nat Anchor :=
  list_to_map
    [(10, mk [] ["card"]); (11, mk [] []); (12, a_post);
     (13, mk [] []); (14, a_top); (15, mk [] []); (16, mk [] []);
     (17, a_void)].

(** ** Further predicates and samples *)

(** A white-space code unit, as [trim] and [\s] see it. *)
Definition is_space (c : ascii) : Prop := Js.isWhiteSpace c = true.

(** Anchors for the edge cases of the rel and of the href. *)
Definition a_blank_only : Anchor := mk [("target", "_Blank")] [].

Definition a_sponsored : Anchor :=
  mk [("target", "_blank"); ("rel", " noreferrer  Sponsored ")] [].

Definition a_spaces : Anchor := mk [("href", "   ")] ["nav-link"].

Definition a_empty_onclick : Anchor :=
  mk [("href", "/dark/"); ("onclick", "")] ["darkmode_switchbutton"].

(** The event's flag once the first statement of the click listener has
    run. *)
Definition flag_after (a : Anchor) (s : St) : bool :=
  defaultPrevented s || bool_decide (or_empty (getAttribute "href" a) = "#").

(** A host whose [scrollTo] throws in both forms. *)
Definition no_scroll_window : Window :=
  mkWindow None None None None None (fun _ => throwing)
           (fun url p => Returned (host_navigate url p)) host_navigate.

(** The calls of [sanitizeOne] the observer makes for a batch, in order. *)
Definition batch_visits (muts : list MutationRecord) : list nat :=
  flat_map (fun m => flat_map added_visits (addedNodes m)) muts.

(** ** A click with the anchor's own onclick *)

(** The handler the host compiles from the code in an onclick attribute.
    It was registered when the attribute was set, before any listener of
    this script, so it hears the click first, on the same event object: it
    may change the page, prevent the default (returning [false] does that
    too) or throw. *)
Definition InlineHandler : Type := string -> St -> FnResult.

(** A click on the anchor as the page sees it: the inline handler if the
    anchor has an onclick attribute, then the listeners of this script in
    the order of their registration, then the default action unless it was
    prevented. *)
Definition click_event (win : Window) (inline : InlineHandler) (a : Anchor)
    (p : Page) : Page :=
  let s0 := match getAttribute "onclick" a with
            | Some code => result_state (inline code (mkSt p false))
            | None => mkSt p false
            end in
  let s := foldl (run_click_listener win a) s0 (listeners a) in
  if defaultPrevented s then page s
  else match getAttribute "href" a with
       | Some h => follow_hyperlink win h (page s)
       | None => page s
       end.






(** * Properties *)

(** ** The primitives on sample values *)

Example split_ws_inner : Js.split_ws "a  b" = ["a"; "b"].
Proof. reflexivity. Qed.

Example split_ws_ends : Js.split_ws " a " = [""; "a"; ""].
Proof. reflexivity. Qed.

Example split_ws_empty : Js.split_ws "" = [""].
Proof. reflexivity. Qed.

Example trim_both : Js.trim "  JavaScript:Void(0) " = "JavaScript:Void(0)".
Proof. reflexivity. Qed.

Example harden_noopener :
  getAttribute "rel"
    (hardenRel (mk [("target", "_BLANK"); ("rel", "noopener")] []))
  = Some "noopener noreferrer".
Proof. vm_compute. reflexivity. Qed.

(** ** Strings: characters, tokens, and splitting what was joined *)

Lemma append_cons c (s t : string) : String c s +:+ t = String c (s +:+ t).
Proof. reflexivity. Qed.

Lemma append_nil (t : string) : "" +:+ t = t.
Proof. reflexivity. Qed.

Lemma all_chars_app P s t :
  all_chars P (s +:+ t) <-> all_chars P s /\ all_chars P t.
Proof.
  induction s as [|c s IH]; [rewrite append_nil | rewrite append_cons];
    simpl; tauto.
Qed.

Lemma all_chars_impl (P Q : ascii -> Prop) s :
  (forall c, P c -> Q c) -> all_chars P s -> all_chars Q s.
Proof. intros HPQ. induction s; simpl; intuition. Qed.

Lemma lowerChar_idemp c : Js.lowerChar (Js.lowerChar c) = Js.lowerChar c.
Proof. destruct c as [[] [] [] [] [] [] [] []]; reflexivity. Qed.

Lemma toLowerCase_is_lower s : is_lower (Js.toLowerCase s).
Proof.
  induction s as [|c s IH]; simpl; [exact I|].
  split; [apply lowerChar_idemp | exact IH].
Qed.

Lemma toLowerCase_fixed s : is_lower s -> Js.toLowerCase s = s.
Proof.
  induction s as [|c s IH]; simpl; [reflexivity|].
  intros [Hc Hs]. rewrite Hc, IH by exact Hs. reflexivity.
Qed.

Lemma toLowerCase_idemp s : Js.toLowerCase (Js.toLowerCase s) = Js.toLowerCase s.
Proof. apply toLowerCase_fixed, toLowerCase_is_lower. Qed.

Lemma app_empty_r s : s +:+ "" = s.
Proof.
  induction s as [|c s IH]; [reflexivity|].
  rewrite append_cons, IH. reflexivity.
Qed.

Lemma app_assoc_s (s t u : string) : (s +:+ t) +:+ u = s +:+ (t +:+ u).
Proof.
  induction s as [|c s IH]; [reflexivity|].
  rewrite !append_cons, IH. reflexivity.
Qed.

Lemma split_go_plain b cur c s :
  Js.isWhiteSpace c = false ->
  Js.split_go b cur (String c s)
  = Js.split_go false (cur +:+ String c "") s.
Proof. intros Hc. simpl. rewrite Hc. reflexivity. Qed.

Lemma split_go_space cur s :
  Js.split_go false cur (String " " s) = cur :: Js.split_go true "" s.
Proof. reflexivity. Qed.

(** Reading through a stretch without white space only extends the piece. *)
Lemma split_go_token t b cur rest :
  all_chars (fun c => Js.isWhiteSpace c = false) t -> t <> "" ->
  Js.split_go b cur (t +:+ rest) = Js.split_go false (cur +:+ t) rest.
Proof.
  revert b cur. induction t as [|c t IH]; intros b cur Hall Hne;
    [congruence|].
  destruct Hall as [Hc Ht].
  rewrite append_cons, split_go_plain by exact Hc.
  destruct t as [|d t].
  - rewrite append_nil. reflexivity.
  - rewrite IH by (exact Ht || discriminate).
    rewrite app_assoc_s. reflexivity.
Qed.

Lemma split_go_chars (P : ascii -> Prop) b cur s :
  all_chars P cur ->
  all_chars (fun c => Js.isWhiteSpace c = false -> P c) s ->
  Forall (all_chars P) (Js.split_go b cur s).
Proof.
  revert b cur. induction s as [|c s IH]; intros b cur Hcur Hs; simpl.
  - repeat constructor. exact Hcur.
  - destruct Hs as [Hc Hs]. destruct (Js.isWhiteSpace c) eqn:Ec.
    + destruct b; [apply IH; assumption|].
      constructor; [exact Hcur | apply IH; [exact I | exact Hs]].
    + apply IH; [|exact Hs]. apply all_chars_app. simpl. auto.
Qed.

Lemma rel_tokens_chars (P : ascii -> Prop) s :
  all_chars (fun c => Js.isWhiteSpace c = false -> P c) s ->
  Forall (all_chars P) (rel_tokens s).
Proof.
  intros Hs. apply Forall_forall. intros t Ht.
  unfold rel_tokens in Ht. apply list_elem_of_filter in Ht as [_ Ht].
  revert t Ht. apply Forall_forall.
  apply split_go_chars; [exact I | exact Hs].
Qed.

Lemma rel_tokens_are_tokens s : Forall is_token (rel_tokens s).
Proof.
  apply Forall_forall. intros t Ht. split.
  - unfold rel_tokens in Ht. apply list_elem_of_filter in Ht as [Htr _].
    intros ->. discriminate.
  - revert t Ht. apply Forall_forall, rel_tokens_chars.
    induction s; simpl; auto.
Qed.

Lemma rel_tokens_lower s : is_lower s -> Forall is_lower (rel_tokens s).
Proof.
  intros Hs. apply rel_tokens_chars.
  revert Hs. apply all_chars_impl. auto.
Qed.

Lemma join_cons2 sep x y l :
  Js.join sep (x :: y :: l) = x +:+ sep +:+ Js.join sep (y :: l).
Proof. reflexivity. Qed.

Lemma join_is_lower l : Forall is_lower l -> is_lower (Js.join " " l).
Proof.
  induction l as [|x [|y l] IH]; intros Hl.
  - exact I.
  - inversion Hl; assumption.
  - rewrite join_cons2. inversion Hl as [|? ? Hx Hl']; subst.
    apply all_chars_app; split; [exact Hx|].
    apply all_chars_app; split; [simpl; auto | apply IH, Hl'].
Qed.

(** Splitting what [join] wrote gives the tokens back. *)
Lemma split_join_tokens b l :
  Forall is_token l ->
  filter (fun x => Js.truthy x = true) (Js.split_go b "" (Js.join " " l)) = l.
Proof.
  revert b. induction l as [|x [|y l] IH]; intros b Hl.
  - reflexivity.
  - inversion Hl as [|? ? [Hne Hx] _]; subst. simpl Js.join.
    rewrite <- (app_empty_r x) at 1.
    rewrite split_go_token by assumption.
    rewrite append_nil. simpl Js.split_go.
    destruct x; [congruence | reflexivity].
  - inversion Hl as [|? ? [Hne Hx] Hl']; subst. rewrite join_cons2.
    rewrite split_go_token by assumption.
    rewrite append_nil, append_cons, append_nil, split_go_space.
    rewrite filter_cons_True by (destruct x; [congruence | reflexivity]).
    rewrite IH by exact Hl'. reflexivity.
Qed.

Lemma rel_tokens_join l : Forall is_token l -> rel_tokens (Js.join " " l) = l.
Proof. apply split_join_tokens. Qed.

(** Insertion-ordered sets. *)
Lemma set_add_elem h x y : y ∈ Js.set_add h x <-> y ∈ h \/ y = x.
Proof.
  unfold Js.set_add. destruct (decide (x ∈ h)) as [Hin|Hin].
  - split; [auto | intros [?| ->]; assumption].
  - rewrite elem_of_app, list_elem_of_singleton. reflexivity.
Qed.

Lemma set_add_NoDup h x : NoDup h -> NoDup (Js.set_add h x).
Proof.
  intros Hh. unfold Js.set_add. destruct (decide (x ∈ h)) as [Hin|Hin];
    [exact Hh|].
  apply NoDup_app. split; [exact Hh|]. split.
  - intros y Hy Hyx. apply list_elem_of_singleton in Hyx. congruence.
  - apply NoDup_singleton.
Qed.

Lemma set_add_present h x : x ∈ h -> Js.set_add h x = h.
Proof. intros Hin. unfold Js.set_add. by rewrite decide_True. Qed.

Lemma foldl_set_add_elem l h y :
  y ∈ foldl Js.set_add h l <-> y ∈ h \/ y ∈ l.
Proof.
  revert h. induction l as [|x l IH]; intros h; simpl.
  - rewrite elem_of_nil. tauto.
  - rewrite IH, set_add_elem, elem_of_cons. tauto.
Qed.

Lemma foldl_set_add_NoDup l h : NoDup h -> NoDup (foldl Js.set_add h l).
Proof.
  revert h. induction l as [|x l IH]; intros h Hh; simpl; [exact Hh|].
  apply IH, set_add_NoDup, Hh.
Qed.

Lemma foldl_set_add_present l h :
  (forall x, x ∈ l -> x ∈ h) -> foldl Js.set_add h l = h.
Proof.
  induction l as [|x l IH]; intros Hl; simpl; [reflexivity|].
  rewrite set_add_present by (apply Hl; left).
  apply IH. intros y Hy. apply Hl. right. exact Hy.
Qed.

Lemma foldl_set_add_fresh l h :
  NoDup (h ++ l)%list -> foldl Js.set_add h l = (h ++ l)%list.
Proof.
  revert h. induction l as [|x l IH]; intros h Hnd; simpl.
  - by rewrite app_nil_r.
  - assert (Hx : x ∉ h).
    { apply NoDup_app in Hnd as (_ & Hdis & _).
      intros Hin. apply (Hdis x Hin). left. }
    unfold Js.set_add at 2. rewrite decide_False by exact Hx.
    rewrite IH; rewrite <- app_assoc; [reflexivity | exact Hnd].
Qed.

Lemma set_from_NoDup l : NoDup l -> Js.set_from l = l.
Proof. intros Hl. unfold Js.set_from. by rewrite foldl_set_add_fresh. Qed.

Lemma hardened_elem rel t :
  t ∈ hardened rel <-> t ∈ rel_tokens (Js.toLowerCase rel) \/ t ∈ needed.
Proof.
  unfold hardened, Js.set_from. rewrite !foldl_set_add_elem, elem_of_nil.
  tauto.
Qed.

Lemma hardened_NoDup rel : NoDup (hardened rel).
Proof. apply foldl_set_add_NoDup, foldl_set_add_NoDup, NoDup_nil_2. Qed.

Lemma needed_tokens : Forall (fun t => is_token t /\ is_lower t) needed.
Proof.
  repeat constructor; try discriminate; simpl; repeat split; reflexivity.
Qed.

Lemma hardened_tokens rel :
  Forall (fun t => is_token t /\ is_lower t) (hardened rel).
Proof.
  apply Forall_forall. intros t Ht. apply hardened_elem in Ht as [Ht|Ht].
  - split.
    + revert t Ht. apply Forall_forall, rel_tokens_are_tokens.
    + revert t Ht. apply Forall_forall, rel_tokens_lower, toLowerCase_is_lower.
  - revert t Ht. apply Forall_forall, needed_tokens.
Qed.

(** Reading back the written value yields the same token list. *)
Lemma hardened_fixed rel : hardened (Js.join " " (hardened rel)) = hardened rel.
Proof.
  pose proof (hardened_tokens rel) as Htok.
  unfold hardened at 1.
  rewrite toLowerCase_fixed
    by (apply join_is_lower; eapply Forall_impl; [exact Htok | by intros ? []]).
  rewrite rel_tokens_join
    by (eapply Forall_impl; [exact Htok | by intros ? []]).
  rewrite set_from_NoDup by apply hardened_NoDup.
  apply foldl_set_add_present. intros x Hx. apply hardened_elem. by right.
Qed.

(** ** [hardenRel] *)

Lemma hardenRel_blank a :
  Js.toLowerCase (or_empty (getAttribute "target" a)) = "_blank" ->
  hardenRel a
  = setAttribute "rel"
      (Js.join " " (hardened (or_empty (getAttribute "rel" a)))) a.
Proof. intros Ht. unfold hardenRel. rewrite decide_True by exact Ht. reflexivity. Qed.

Lemma hardenRel_not_blank a :
  Js.toLowerCase (or_empty (getAttribute "target" a)) <> "_blank" ->
  hardenRel a = a.
Proof. intros Ht. unfold hardenRel. rewrite decide_False by exact Ht. reflexivity. Qed.

Lemma getAttribute_set_eq n v a : getAttribute n (setAttribute n v a) = Some v.
Proof. apply lookup_insert_eq. Qed.

Lemma getAttribute_set_ne n m v a :
  n <> m -> getAttribute m (setAttribute n v a) = getAttribute m a.
Proof. intros Hne. apply lookup_insert_ne, Hne. Qed.

Lemma setAttribute_same n v a :
  getAttribute n a = Some v -> setAttribute n v a = a.
Proof.
  intros Hv. destruct a as [m cl ls]. unfold setAttribute. simpl.
  f_equal. apply insert_id, Hv.
Qed.

Lemma hardenRel_other n a :
  n <> "rel" -> getAttribute n (hardenRel a) = getAttribute n a.
Proof.
  intros Hne. unfold hardenRel. case_decide; [|reflexivity].
  apply getAttribute_set_ne. congruence.
Qed.

Lemma hardenRel_classList a : classList (hardenRel a) = classList a.
Proof. unfold hardenRel. case_decide; reflexivity. Qed.

Lemma hardenRel_listeners a : listeners (hardenRel a) = listeners a.
Proof. unfold hardenRel. case_decide; reflexivity. Qed.

Lemma hardenRel_idemp a : hardenRel (hardenRel a) = hardenRel a.
Proof.
  destruct (decide (Js.toLowerCase (or_empty (getAttribute "target" a)) = "_blank"))
    as [Ht|Ht].
  - rewrite (hardenRel_blank a Ht).
    rewrite hardenRel_blank
      by (rewrite getAttribute_set_ne by discriminate; exact Ht).
    rewrite getAttribute_set_eq. simpl or_empty. rewrite hardened_fixed.
    apply setAttribute_same, getAttribute_set_eq.
  - rewrite (hardenRel_not_blank a Ht). apply hardenRel_not_blank, Ht.
Qed.

Example harden_nofollow :
  getAttribute "rel" (hardenRel a_nofollow) = Some "nofollow noopener noreferrer".
Proof. vm_compute. reflexivity. Qed.

(** C3, as stated, fails: the previous tokens are not kept as they were
    written.  With [rel="NoFollow"] the token [NoFollow] belongs to the
    union of the previous tokens with the required ones, and the value
    written back does not contain it. *)
Lemma hardenRel_tokens_not_preserved :
  Js.toLowerCase (or_empty (getAttribute "target" a_nofollow)) = "_blank" /\
  ~ (forall t,
       t ∈ rel_tokens (or_empty (getAttribute "rel" (hardenRel a_nofollow)))
       <-> t ∈ rel_tokens (or_empty (getAttribute "rel" a_nofollow))
           \/ t ∈ needed).
Proof.
  split; [reflexivity|]. intros H.
  assert (Hin : "NoFollow" ∈
      rel_tokens (or_empty (getAttribute "rel" (hardenRel a_nofollow)))).
  { apply H. left. vm_compute. left. }
  vm_compute in Hin.
  repeat (apply elem_of_cons in Hin as [Hin|Hin]; [discriminate|]).
  by apply elem_of_nil in Hin.
Qed.

(** C3 (amended): on an anchor whose target is [_blank] in any case, the
    tokens of the rel value written back are exactly the previous rel
    tokens in lower case together with [noopener] and [noreferrer], no token
    occurs twice, and hardening the hardened anchor changes nothing. *)
Theorem hardenRel_token_union a :
  Js.toLowerCase (or_empty (getAttribute "target" a)) = "_blank" ->
  let old := rel_tokens (Js.toLowerCase (or_empty (getAttribute "rel" a))) in
  let new := rel_tokens (or_empty (getAttribute "rel" (hardenRel a))) in
  (forall t, t ∈ new <-> t ∈ old \/ t ∈ needed) /\
  NoDup new /\
  hardenRel (hardenRel a) = hardenRel a.
Proof.
  intros Ht old new.
  assert (Hnew : new = hardened (or_empty (getAttribute "rel" a))).
  { unfold new. rewrite (hardenRel_blank a Ht), getAttribute_set_eq.
    simpl or_empty. apply rel_tokens_join.
    eapply Forall_impl; [apply hardened_tokens | by intros ? []]. }
  rewrite Hnew. split; [|split].
  - intros t. apply hardened_elem.
  - apply hardened_NoDup.
  - apply hardenRel_idemp.
Qed.

Lemma hardenRel_token_union_witness :
  Js.toLowerCase (or_empty (getAttribute "target" a_noopener)) = "_blank" /\
  rel_tokens (or_empty (getAttribute "rel" (hardenRel a_noopener)))
  = ["noopener"; "noreferrer"] /\
  NoDup (rel_tokens (or_empty (getAttribute "rel" (hardenRel a_noopener)))) /\
  hardenRel (hardenRel a_noopener) = hardenRel a_noopener.
Proof.
  assert (Ht : Js.toLowerCase (or_empty (getAttribute "target" a_noopener))
               = "_blank") by reflexivity.
  split; [exact Ht|]. split; [vm_compute; reflexivity|].
  exact (proj2 (hardenRel_token_union a_noopener Ht)).
Defined.

(** ** [sanitizeOne]: the three categories *)

Lemma isInvalidHref_spec a : isInvalidHref a = true <-> invalid_href a.
Proof.
  unfold isInvalidHref, invalid_href.
  rewrite orb_true_iff, negb_true_iff, bool_decide_eq_true.
  destruct (rawHref a); simpl; intuition congruence.
Qed.

Lemma isButtony_spec a : isButtony a = true <-> has_button_class a.
Proof.
  unfold isButtony, has_button_class. rewrite existsb_exists.
  split; intros (c & Hc & Hin); exists c.
  - apply list_elem_of_In in Hc. apply bool_decide_eq_true in Hin. auto.
  - rewrite <- list_elem_of_In. split; [exact Hc|].
    apply bool_decide_eq_true, Hin.
Qed.

Lemma isButtony_hardenRel a : isButtony (hardenRel a) = isButtony a.
Proof. unfold isButtony, contains. rewrite hardenRel_classList. reflexivity. Qed.

Lemma sanitizeOne_button a :
  isInvalidHref a || hasOnclick a = true -> isButtony a = true ->
  sanitizeOne a = attachHandler (makeButtonLike (hardenRel a)).
Proof.
  intros Hc Hb. unfold sanitizeOne.
  rewrite Hc, isButtony_hardenRel, Hb. reflexivity.
Qed.

Lemma sanitizeOne_plain_invalid a :
  isInvalidHref a = true -> isButtony a = false ->
  sanitizeOne a = setAttribute "href" "#current" (hardenRel a).
Proof.
  intros Hi Hb. unfold sanitizeOne.
  rewrite Hi, isButtony_hardenRel, Hb. reflexivity.
Qed.

Lemma sanitizeOne_valid_plain a :
  isInvalidHref a = false -> isButtony a = false ->
  sanitizeOne a = hardenRel a.
Proof.
  intros Hi Hb. unfold sanitizeOne.
  rewrite Hi, isButtony_hardenRel, Hb. simpl.
  destruct (hasOnclick a); reflexivity.
Qed.

Lemma sanitizeOne_ordinary a :
  isInvalidHref a = false -> hasOnclick a = false ->
  sanitizeOne a = hardenRel a.
Proof. intros Hi Ho. unfold sanitizeOne. rewrite Hi, Ho. reflexivity. Qed.

(** The anchor falls in exactly one of the cases above. *)
Lemma sanitizeOne_cases a :
  sanitizeOne a = attachHandler (makeButtonLike (hardenRel a))
  \/ sanitizeOne a = setAttribute "href" "#current" (hardenRel a)
  \/ sanitizeOne a = hardenRel a.
Proof.
  unfold sanitizeOne.
  destruct (isInvalidHref a), (hasOnclick a), (isButtony (hardenRel a));
    simpl; auto.
Qed.

Lemma getAttribute_button n a :
  n <> "href" -> n <> "role" -> n <> "tabindex" ->
  getAttribute n (attachHandler (makeButtonLike a)) = getAttribute n a.
Proof.
  intros H1 H2 H3. unfold attachHandler, makeButtonLike, addEventListener,
    getAttribute, setAttribute. simpl.
  rewrite !lookup_insert_ne by congruence. reflexivity.
Qed.

(** Only [rel], [href], [role] and [tabindex] are ever written. *)
Lemma sanitizeOne_frame n a :
  n <> "rel" -> n <> "href" -> n <> "role" -> n <> "tabindex" ->
  getAttribute n (sanitizeOne a) = getAttribute n a.
Proof.
  intros Hrel Hhref Hrole Htab.
  destruct (sanitizeOne_cases a) as [-> | [-> | ->]].
  - rewrite getAttribute_button by assumption. apply hardenRel_other, Hrel.
  - rewrite getAttribute_set_ne by congruence. apply hardenRel_other, Hrel.
  - apply hardenRel_other, Hrel.
Qed.

Lemma sanitizeOne_classList a : classList (sanitizeOne a) = classList a.
Proof.
  destruct (sanitizeOne_cases a) as [-> | [-> | ->]]; simpl;
    apply hardenRel_classList.
Qed.

Lemma no_button_class_menu (kvs : list (string * string)) :
  ~ has_button_class (mk kvs ["menu"]).
Proof.
  intros (c & Hc & Hin). apply list_elem_of_singleton in Hin as ->.
  unfold BUTTONY_CLASSES in Hc.
  repeat (apply elem_of_cons in Hc as [Hc|Hc]; [discriminate|]).
  by apply elem_of_nil in Hc.
Qed.

(** C2: an anchor whose href, trimmed and in lower case, is empty or in the
    invalid set (a missing attribute counts as empty) and whose class list
    has no member of BUTTONY_CLASSES has [href="#current"] afterwards. *)
Theorem sanitizeOne_invalid_plain_href a :
  invalid_href a -> ~ has_button_class a ->
  getAttribute "href" (sanitizeOne a) = Some "#current".
Proof.
  intros Hi Hb. apply isInvalidHref_spec in Hi.
  rewrite <- isButtony_spec in Hb. apply not_true_is_false in Hb.
  rewrite sanitizeOne_plain_invalid by assumption.
  apply getAttribute_set_eq.
Qed.

Lemma sanitizeOne_invalid_plain_href_witness :
  invalid_href a_void /\ ~ has_button_class a_void /\
  getAttribute "href" (sanitizeOne a_void) = Some "#current".
Proof.
  assert (Hi : invalid_href a_void) by (right; vm_compute; do 3 right; left).
  assert (Hb : ~ has_button_class a_void) by apply no_button_class_menu.
  split; [exact Hi|]. split; [exact Hb|].
  exact (sanitizeOne_invalid_plain_href a_void Hi Hb).
Defined.

(** C10: whatever the category of the anchor, one pass leaves the onclick
    attribute as it was: the same value, or absent as before. *)
Theorem sanitizeOne_onclick_unchanged a :
  getAttribute "onclick" (sanitizeOne a) = getAttribute "onclick" a.
Proof. apply sanitizeOne_frame; discriminate. Qed.

(** C4, as stated, fails where the href is absent: a missing href counts as
    empty, hence as invalid, and the anchor gets [href="#current"] although
    it has an onclick and no button class. *)
Lemma onclick_absent_href_rewritten :
  getAttribute "onclick" a_onclick = Some "openMenu()" /\
  ~ has_button_class a_onclick /\
  getAttribute "href" a_onclick = None /\
  getAttribute "href" (sanitizeOne a_onclick) <> getAttribute "href" a_onclick.
Proof.
  split; [reflexivity|]. split; [apply no_button_class_menu|].
  split; [reflexivity|]. vm_compute. discriminate.
Qed.

(** C4 (amended): on an anchor with an onclick attribute and no button
    class, the onclick attribute is kept; the href is left as it was when
    it is present and valid, and becomes ["#current"] exactly when it was
    invalid, a missing href counting as empty and so as invalid. *)
Theorem sanitizeOne_onclick_plain a v :
  getAttribute "onclick" a = Some v -> ~ has_button_class a ->
  getAttribute "onclick" (sanitizeOne a) = Some v /\
  (~ invalid_href a ->
     getAttribute "href" (sanitizeOne a) = getAttribute "href" a) /\
  (invalid_href a -> getAttribute "href" (sanitizeOne a) = Some "#current") /\
  (getAttribute "href" a = None -> invalid_href a).
Proof.
  intros Ho Hb. split; [|split; [|split]].
  - rewrite sanitizeOne_frame by discriminate. exact Ho.
  - intros Hv. rewrite <- isInvalidHref_spec in Hv.
    rewrite <- isButtony_spec in Hb.
    apply not_true_is_false in Hv, Hb.
    rewrite sanitizeOne_valid_plain by assumption.
    apply hardenRel_other. discriminate.
  - intros Hi. apply isInvalidHref_spec in Hi.
    rewrite <- isButtony_spec in Hb. apply not_true_is_false in Hb.
    rewrite sanitizeOne_plain_invalid by assumption.
    apply getAttribute_set_eq.
  - intros Hn. left. unfold rawHref. rewrite Hn. reflexivity.
Qed.

Lemma sanitizeOne_onclick_plain_witness :
  getAttribute "onclick" (sanitizeOne a_onclick_href) = Some "track()" /\
  getAttribute "href" (sanitizeOne a_onclick_href) = Some "/posts/1".
Proof.
  assert (Hb : ~ has_button_class a_onclick_href)
    by apply no_button_class_menu.
  destruct (sanitizeOne_onclick_plain a_onclick_href "track()" eq_refl Hb)
    as (Ho & Hv & _ & _).
  split; [exact Ho|]. apply Hv.
  intros [Hi|Hi]; [discriminate|]. vm_compute in Hi.
  repeat (apply elem_of_cons in Hi as [Hi|Hi]; [discriminate|]).
  by apply elem_of_nil in Hi.
Defined.

(** C9: an anchor whose href, trimmed and in lower case, is not empty and
    not in the invalid set, and which has no onclick attribute, gets the rel
    hardening and nothing else: the href is as before and no listener is
    registered. *)
Theorem sanitizeOne_ordinary_frame a :
  ~ invalid_href a -> getAttribute "onclick" a = None ->
  sanitizeOne a = hardenRel a /\
  getAttribute "href" (sanitizeOne a) = getAttribute "href" a /\
  listeners (sanitizeOne a) = listeners a.
Proof.
  intros Hv Ho. rewrite <- isInvalidHref_spec in Hv.
  apply not_true_is_false in Hv.
  assert (Hs : sanitizeOne a = hardenRel a).
  { apply sanitizeOne_ordinary; [exact Hv|].
    unfold hasOnclick. rewrite Ho. reflexivity. }
  rewrite Hs. split; [reflexivity|]. split.
  - apply hardenRel_other. discriminate.
  - apply hardenRel_listeners.
Qed.

Lemma a_post_valid : ~ invalid_href a_post.
Proof.
  intros [Hi|Hi]; [discriminate|]. vm_compute in Hi.
  repeat (apply elem_of_cons in Hi as [Hi|Hi]; [discriminate|]).
  by apply elem_of_nil in Hi.
Qed.

Lemma sanitizeOne_ordinary_frame_witness :
  ~ invalid_href a_post /\ getAttribute "onclick" a_post = None /\
  getAttribute "href" (sanitizeOne a_post) = Some "/posts/1" /\
  listeners (sanitizeOne a_post) = [].
Proof.
  split; [exact a_post_valid|]. split; [reflexivity|].
  destruct (sanitizeOne_ordinary_frame a_post a_post_valid eq_refl)
    as (_ & Hh & Hl).
  split; [exact Hh | exact Hl].
Defined.

(** ** The click listener: one branch, no error *)

Lemma returns_leaves b : returns b -> leaves b.
Proof. intros Hb s. left. apply Hb. Qed.

Lemma seq_ret_leaves b : leaves (b >>> ret).
Proof. intros s. unfold seq, ret. destruct (b s); eauto. Qed.

Lemma ret_returns : returns ret.
Proof. intros s. by exists s. Qed.

Lemma try_skip_ret_returns b : returns (try_catch b skip >>> ret).
Proof.
  intros s. unfold seq, try_catch, skip, ret. destruct (b s); eauto.
Qed.

Lemma If_true_seq b rest s : leaves b -> (If true b >>> rest) s = b s.
Proof.
  intros Hb. unfold seq, If.
  destruct (Hb s) as [[s' ->] | [s' ->]]; reflexivity.
Qed.

Lemma If_false_seq b rest s : (If false b >>> rest) s = rest s.
Proof. reflexivity. Qed.

Lemma branch_leaves win t : leaves (branch win t).
Proof.
  destruct t; simpl;
    first [apply seq_ret_leaves | apply returns_leaves, ret_returns].
Qed.

Lemma prevent_step_normal a s :
  prevent_step a s
  = Normal (mkSt (page s)
      (defaultPrevented s
       || bool_decide (or_empty (getAttribute "href" a) = "#"))).
Proof.
  unfold prevent_step, If, preventDefault, skip.
  destruct s as [p d]. case_bool_decide; simpl.
  - by rewrite orb_true_r.
  - by rewrite orb_false_r.
Qed.

Lemma seq_prevent_step a rest s :
  (prevent_step a >>> rest) s
  = rest (mkSt (page s)
      (defaultPrevented s
       || bool_decide (or_empty (getAttribute "href" a) = "#"))).
Proof. unfold seq at 1. rewrite prevent_step_normal. reflexivity. Qed.

Lemma click_body_dispatch win a s : click_body win a s = dispatch_spec win a s.
Proof.
  unfold click_body, dispatch_spec.
  rewrite !seq_prevent_step.
  generalize (mkSt (page s)
    (defaultPrevented s
     || bool_decide (or_empty (getAttribute "href" a) = "#"))).
  clear s. intros s.
  unfold first_tag, priority, tag_matches, tag_classes. simpl.
  rewrite !orb_false_r.
  repeat match goal with
  | |- context [If ?b _] =>
      destruct b;
      [ first [ apply If_true_seq, (branch_leaves win darkmode)
              | apply If_true_seq, (branch_leaves win asideSwitch)
              | apply If_true_seq, (branch_leaves win consoleSwitch)
              | apply If_true_seq, (branch_leaves win bannerButton)
              | apply If_true_seq, (branch_leaves win commentBarrage)
              | apply If_true_seq, (branch_leaves win totop)
              | apply If_true_seq, (branch_leaves win randomPost)
              | reflexivity ]
      | rewrite ?If_false_seq ]
  end.
  reflexivity.
Qed.


Example click_many_classes :
  first_tag a_many = Some asideSwitch /\
  click_handler themed_window a_many (mkSt page0 false)
  = Done (mkSt (mkPage "https://blog.example/post/" 0 120 ["heo.showConsole"])
               true).
Proof. split; vm_compute; reflexivity. Qed.

Lemma totop_returns win : instant_scroll_works win -> returns (totop_branch win).
Proof.
  intros Hs s. unfold totop_branch, seq, try_catch, call, ret.
  destruct (scrollTo win (ScrollOptions 0 true) (page s)) as [p|p]; simpl;
    [eauto|].
  destruct (Hs p) as [p' ->]. eauto.
Qed.

Lemma branch_returns win t :
  (t = totop -> instant_scroll_works win) -> returns (branch win t).
Proof.
  intros Hs. destruct t; simpl;
    first [apply try_skip_ret_returns | apply ret_returns | idtac].
  apply totop_returns, Hs. reflexivity.
Qed.

(** C7, as stated, fails: in the totop branch the fallback [scrollTo(0, 0)]
    stands in the catch block without a guard of its own, so when both
    forms of [scrollTo] throw the error leaves the click handler, in a
    window where every theme function is simply absent. *)
Lemma fallback_scroll_error_escapes :
  first_tag (sanitizeOne a_top) = Some totop /\
  click_handler no_scroll_window (sanitizeOne a_top) (mkSt page0 false)
  = Raised (mkSt page0 true) /\
  ~ (exists s', click_handler no_scroll_window (sanitizeOne a_top)
                  (mkSt page0 false) = Done s').
Proof.
  split; [vm_compute; reflexivity|]. split; [vm_compute; reflexivity|].
  intros [s' H]. vm_compute in H. discriminate.
Qed.

(** C7 (amended): whatever theme functions the window holds, each missing,
    throwing or working, the click handler ends without an error, except
    where the first matching tag is totop, the smooth [scrollTo] threw and
    the fallback [scrollTo(0, 0)] threw as well; no missing or throwing
    theme function ever makes the handler end with an error. *)
Theorem click_handler_error_free win a s :
  (first_tag a = Some totop ->
   forall p1, scrollTo win (ScrollOptions 0 true) (page s) = Threw p1 ->
              exists p', scrollTo win (ScrollXY 0 0) p1 = Returned p') ->
  exists s', click_handler win a s = Done s'.
Proof.
  intros Hs. unfold click_handler, run_body.
  rewrite click_body_dispatch. unfold dispatch_spec.
  rewrite seq_prevent_step.
  destruct (first_tag a) as [t|]; [|eauto].
  assert (Ht : t = totop \/ (t = totop -> instant_scroll_works win)).
  { destruct t; (left; reflexivity) || (right; discriminate). }
  destruct Ht as [->|Hn].
  - specialize (Hs eq_refl). simpl branch.
    unfold totop_branch, seq, try_catch, call, ret. simpl.
    destruct (scrollTo win (ScrollOptions 0 true) (page s)) as [p|p1];
      simpl; [eauto|].
    destruct (Hs p1 eq_refl) as [p' ->]. simpl. eauto.
  - edestruct (branch_returns win t Hn) as [s' ->]. eauto.
Qed.

Lemma click_handler_error_free_witness :
  scrollTo failing_window (ScrollOptions 0 true) page0 = Threw page0 /\
  first_tag (sanitizeOne a_top) = Some totop /\
  exists s', click_handler failing_window (sanitizeOne a_top)
               (mkSt page0 false) = Done s'.
Proof.
  split; [reflexivity|]. split; [vm_compute; reflexivity|].
  apply (click_handler_error_free failing_window (sanitizeOne a_top)
           (mkSt page0 false)).
  intros _ p1 _. eexists. reflexivity.
Defined.

Example click_totop_fallback :
  click_handler failing_window a_top (mkSt page0 false)
  = Done (mkSt (mkPage "https://blog.example/post/" 0 0 []) false).
Proof. vm_compute. reflexivity. Qed.




Example click_randomPost_present :
  click_handler themed_window (sanitizeOne a_random) (mkSt page0 false)
  = Done (mkSt (mkPage "https://blog.example/post/" 0 120 ["toRandomPost"])
               true).
Proof. vm_compute. reflexivity. Qed.

(** ** Button-like anchors and the address of the page *)

Lemma quiet_skip : quiet skip.
Proof. intros s. split; reflexivity. Qed.

Lemma quiet_ret : quiet ret.
Proof. intros s. split; reflexivity. Qed.

Lemma quiet_seq b1 b2 : quiet b1 -> quiet b2 -> quiet (b1 >>> b2).
Proof.
  intros H1 H2 s. unfold seq. specialize (H1 s).
  destruct (b1 s) as [s1|s1|s1]; simpl in *; [|exact H1..].
  destruct H1 as [Hl1 Hd1], (H2 s1) as [Hl Hd]. split; congruence.
Qed.

Lemma quiet_try b h : quiet b -> quiet h -> quiet (try_catch b h).
Proof.
  intros H1 H2 s. unfold try_catch. specialize (H1 s).
  destruct (b s) as [s1|s1|s1]; simpl in *; [exact H1..|].
  destruct H1 as [Hl1 Hd1], (H2 s1) as [Hl Hd]. split; congruence.
Qed.

Lemma quiet_call f : keeps_location f -> quiet (call f).
Proof.
  intros Hf s. unfold call. specialize (Hf (page s)).
  destruct (f (page s)); simpl in *; split; auto.
Qed.

Lemma quiet_return_call_if x : opt_keeps_location x -> quiet (return_call_if x).
Proof.
  intros Hx. unfold return_call_if. destruct x as [f|]; [|apply quiet_skip].
  apply quiet_seq; [apply quiet_call, Hx; reflexivity | apply quiet_ret].
Qed.





Lemma button_attributes a :
  getAttribute "href" (attachHandler (makeButtonLike a)) = Some "#" /\
  getAttribute "role" (attachHandler (makeButtonLike a)) = Some "button" /\
  getAttribute "tabindex" (attachHandler (makeButtonLike a)) = Some "0" /\
  listeners (attachHandler (makeButtonLike a))
  = (listeners a ++ [ClickDispatch; KeydownEnter])%list.
Proof.
  unfold attachHandler, makeButtonLike, addEventListener, setAttribute,
    getAttribute. simpl.
  repeat split;
    try (repeat first [ apply lookup_insert_eq
                      | rewrite lookup_insert_ne by discriminate ]).
  by rewrite <- app_assoc.
Qed.

Lemma hasOnclick_spec a : hasOnclick a = true <-> has_onclick a.
Proof.
  unfold hasOnclick, has_onclick.
  destruct (getAttribute "onclick" a) as [[|c v]|]; simpl; split;
    try discriminate; try (intros (v' & Hv & Hne); congruence).
  intros _. eexists. split; [reflexivity | discriminate].
Qed.

Lemma rewrite_candidate_spec a :
  isInvalidHref a || hasOnclick a = true <-> rewrite_candidate a.
Proof.
  unfold rewrite_candidate.
  rewrite orb_true_iff, isInvalidHref_spec, hasOnclick_spec. reflexivity.
Qed.


Lemma click_event_no_onclick win inline a p :
  getAttribute "onclick" a = None ->
  click_event win inline a p = dispatch_click win a p.
Proof. intros Ho. unfold click_event, dispatch_click. rewrite Ho. reflexivity. Qed.



Example click_top_scrolls :
  dispatch_click bare_window (sanitizeOne a_top) page0
  = mkPage "https://blog.example/post/" 0 0 [].
Proof. vm_compute. reflexivity. Qed.

Example click_random_fallback :
  dispatch_click bare_window (sanitizeOne a_random) page0
  = mkPage "/archives/" 0 120 [].
Proof. vm_compute. reflexivity. Qed.

(** ** A second pass *)

Lemma sanitizeOne_by_category a :
  sanitizeOne a
  = if (isInvalidHref a || hasOnclick a) && isButtony a
    then attachHandler (makeButtonLike (hardenRel a))
    else if isInvalidHref a then setAttribute "href" "#current" (hardenRel a)
    else hardenRel a.
Proof.
  unfold sanitizeOne. rewrite isButtony_hardenRel.
  destruct (isInvalidHref a), (hasOnclick a), (isButtony a); reflexivity.
Qed.

Lemma isInvalidHref_href a b :
  getAttribute "href" a = getAttribute "href" b ->
  isInvalidHref a = isInvalidHref b.
Proof. intros H. unfold isInvalidHref, rawHref. rewrite H. reflexivity. Qed.

Lemma hasOnclick_onclick a b :
  getAttribute "onclick" a = getAttribute "onclick" b ->
  hasOnclick a = hasOnclick b.
Proof. intros H. unfold hasOnclick. rewrite H. reflexivity. Qed.

Lemma isButtony_classList a b :
  classList a = classList b -> isButtony a = isButtony b.
Proof. intros H. unfold isButtony, contains. rewrite H. reflexivity. Qed.

(** An anchor that carries the target and the rel of a hardened anchor is
    itself hardened. *)
Lemma hardenRel_stable a b :
  getAttribute "target" b = getAttribute "target" (hardenRel a) ->
  getAttribute "rel" b = getAttribute "rel" (hardenRel a) ->
  hardenRel b = b.
Proof.
  intros Ht Hr. rewrite hardenRel_other in Ht by discriminate.
  destruct (decide (Js.toLowerCase (or_empty (getAttribute "target" a)) = "_blank"))
    as [Hb|Hb].
  - rewrite (hardenRel_blank a Hb), getAttribute_set_eq in Hr.
    rewrite hardenRel_blank by (rewrite Ht; exact Hb).
    apply setAttribute_same. rewrite Hr. simpl or_empty.
    rewrite hardened_fixed. reflexivity.
  - apply hardenRel_not_blank. rewrite Ht. exact Hb.
Qed.

Lemma makeButtonLike_again a :
  attrs (makeButtonLike (attachHandler (makeButtonLike a)))
  = attrs (attachHandler (makeButtonLike a)).
Proof.
  unfold makeButtonLike, attachHandler, addEventListener, setAttribute. simpl.
  apply map_eq. intros k.
  destruct (decide (k = "tabindex")) as [->|H1];
    [|destruct (decide (k = "role")) as [->|H2];
      [|destruct (decide (k = "href")) as [->|H3]]];
    repeat first [ rewrite lookup_insert_eq
                 | rewrite lookup_insert_ne by (discriminate || congruence) ];
    reflexivity.
Qed.

Lemma sanitizeOne_listeners a :
  listeners (sanitizeOne a) = (listeners a ++ bound_by_pass a)%list.
Proof.
  rewrite sanitizeOne_by_category. unfold bound_by_pass.
  destruct ((isInvalidHref a || hasOnclick a) && isButtony a).
  - destruct (button_attributes (hardenRel a)) as (_ & _ & _ & ->).
    by rewrite hardenRel_listeners.
  - rewrite app_nil_r.
    destruct (isInvalidHref a); simpl; apply hardenRel_listeners.
Qed.

Lemma sanitizeOne_twice_attrs a :
  attrs (sanitizeOne (sanitizeOne a)) = attrs (sanitizeOne a) /\
  bound_by_pass (sanitizeOne a) = bound_by_pass a.
Proof.
  rewrite (sanitizeOne_by_category a). unfold bound_by_pass at 2.
  destruct ((isInvalidHref a || hasOnclick a) && isButtony a) eqn:Eb.
  - (* button-like: the href is now "#", invalid again *)
    set (a1 := attachHandler (makeButtonLike (hardenRel a))).
    assert (Hi : isInvalidHref a1 = true).
    { unfold isInvalidHref, rawHref, a1.
      destruct (button_attributes (hardenRel a)) as (-> & _). reflexivity. }
    assert (Hbt : isButtony a1 = true).
    { apply andb_true_iff in Eb as [_ Hbt]. rewrite <- Hbt.
      rewrite <- (isButtony_hardenRel a). apply isButtony_classList.
      reflexivity. }
    assert (Hh : hardenRel a1 = a1).
    { apply (hardenRel_stable (hardenRel a)); rewrite hardenRel_idemp;
        apply getAttribute_button; discriminate. }
    split.
    + rewrite sanitizeOne_by_category, Hi, Hbt, Hh. simpl.
      apply makeButtonLike_again.
    + unfold bound_by_pass. rewrite Hi, Hbt. reflexivity.
  - destruct (isInvalidHref a) eqn:Ei.
    + (* plain-invalid: the href is now "#current", valid *)
      set (a1 := setAttribute "href" "#current" (hardenRel a)).
      assert (Hi : isInvalidHref a1 = false).
      { unfold isInvalidHref, rawHref, a1. rewrite getAttribute_set_eq.
        reflexivity. }
      assert (Hbt : isButtony a1 = false).
      { simpl in Eb. rewrite <- Eb, <- (isButtony_hardenRel a).
        apply isButtony_classList. reflexivity. }
      assert (Hh : hardenRel a1 = a1).
      { apply (hardenRel_stable (hardenRel a)); rewrite hardenRel_idemp;
          apply getAttribute_set_ne; discriminate. }
      split.
      * rewrite sanitizeOne_by_category, Hi, Hbt, andb_false_r, Hh.
        reflexivity.
      * unfold bound_by_pass. rewrite Hbt, andb_false_r. reflexivity.
    + (* valid href: only the hardening, which stays *)
      set (a1 := hardenRel a).
      assert (Hi : isInvalidHref a1 = false).
      { rewrite <- Ei. apply isInvalidHref_href, hardenRel_other.
        discriminate. }
      assert (Ho : hasOnclick a1 = hasOnclick a).
      { apply hasOnclick_onclick, hardenRel_other. discriminate. }
      assert (Hbt : isButtony a1 = isButtony a) by apply isButtony_hardenRel.
      split.
      * rewrite sanitizeOne_by_category, Hi, Ho, Hbt, Eb.
        unfold a1. rewrite hardenRel_idemp. reflexivity.
      * unfold bound_by_pass. rewrite Hi, Ho, Hbt, Eb. reflexivity.
Qed.

(** C5, as stated, fails: a second pass registers the two listeners again on
    every button-like anchor, so one click then runs the dispatch twice.
    On a dark-mode switch the theme's toggle is called once after one pass
    and twice after two. *)
Lemma second_pass_binds_again :
  run (run [a_dark]) <> run [a_dark] /\
  theme_log (dispatch_click themed_window (sanitizeOne a_dark) page0)
  = ["navFn.switcharMode"] /\
  theme_log (dispatch_click themed_window (sanitizeOne (sanitizeOne a_dark))
               page0)
  = ["navFn.switcharMode"; "navFn.switcharMode"].
Proof.
  split; [|split; vm_compute; reflexivity].
  intros H. apply (f_equal (map listeners)) in H. vm_compute in H.
  discriminate.
Qed.

(** C5 (amended): after a second pass over the same document every anchor
    has the attributes (href, role, tabindex, rel and all others) and the
    class list it had after the first pass; what the second pass adds is one
    more click listener and one more keydown listener on every button-like
    anchor, exactly as the first pass did. *)
Theorem run_twice doc :
  map attrs (run (run doc)) = map attrs (run doc) /\
  map classList (run (run doc)) = map classList (run doc) /\
  map listeners (run (run doc))
  = map (fun a => (listeners (sanitizeOne a) ++ bound_by_pass a)%list) doc.
Proof.
  unfold run. rewrite !map_map. repeat split; apply map_ext; intros a.
  - apply sanitizeOne_twice_attrs.
  - by rewrite !sanitizeOne_classList.
  - rewrite sanitizeOne_listeners.
    by destruct (sanitizeOne_twice_attrs a) as [_ ->].
Qed.

(** ** More on [hardenRel] *)

Lemma isWhiteSpace_lowerChar c :
  Js.isWhiteSpace (Js.lowerChar c) = Js.isWhiteSpace c.
Proof. destruct c as [[] [] [] [] [] [] [] []]; reflexivity. Qed.

Lemma toLowerCase_blank s :
  all_chars is_space s -> all_chars is_space (Js.toLowerCase s).
Proof.
  induction s as [|c s IH]; simpl; [auto|]. intros [Hc Hs]. split; [|auto].
  unfold is_space. rewrite isWhiteSpace_lowerChar. exact Hc.
Qed.

Lemma split_go_blank b s :
  all_chars is_space s ->
  filter (fun x => Js.truthy x = true) (Js.split_go b "" s) = [].
Proof.
  revert b. induction s as [|c s IH]; intros b Hs; [reflexivity|].
  destruct Hs as [Hc Hs]. simpl. rewrite Hc.
  destruct b; [apply IH, Hs|].
  rewrite filter_cons_False by (simpl; discriminate). apply IH, Hs.
Qed.

Lemma rel_tokens_blank s : all_chars is_space s -> rel_tokens s = [].
Proof. apply split_go_blank. Qed.

Lemma hardenRel_writes a :
  Js.toLowerCase (or_empty (getAttribute "target" a)) = "_blank" ->
  getAttribute "rel" (hardenRel a)
  = Some (Js.join " " (hardened (or_empty (getAttribute "rel" a)))).
Proof. intros Ht. rewrite (hardenRel_blank a Ht). apply getAttribute_set_eq. Qed.

Lemma hardened_only_tokens rel : Forall is_token (hardened rel).
Proof. eapply Forall_impl; [apply hardened_tokens | by intros ? []]. Qed.

Lemma hardened_only_lower rel : Forall is_lower (hardened rel).
Proof. eapply Forall_impl; [apply hardened_tokens | by intros ? []]. Qed.

Lemma filter_agree (P Q : string -> Prop)
    `{!forall x, Decision (P x), !forall x, Decision (Q x)} (l : list string) :
  (forall x, x ∈ l -> P x <-> Q x) -> filter P l = filter Q l.
Proof.
  induction l as [|x l IH]; intros Hag; [reflexivity|].
  assert (Hl : filter P l = filter Q l).
  { apply IH. intros y Hy. apply Hag. by right. }
  destruct (decide (P x)) as [Hp|Hp].
  - rewrite !filter_cons_True by (exact Hp || (apply Hag; [left | exact Hp])).
    by rewrite Hl.
  - rewrite !filter_cons_False
      by (exact Hp || (intros Hq; apply Hp, Hag; [left | exact Hq])).
    exact Hl.
Qed.

Lemma foldl_set_add_filter l h :
  NoDup l ->
  foldl Js.set_add h l = (h ++ filter (fun x => x ∉ h) l)%list.
Proof.
  revert h. induction l as [|x l IH]; intros h Hl; simpl.
  - by rewrite app_nil_r.
  - apply NoDup_cons in Hl as [Hx Hl]. unfold Js.set_add at 2.
    destruct (decide (x ∈ h)) as [Hin|Hin].
    + rewrite filter_cons_False by tauto. apply IH, Hl.
    + rewrite filter_cons_True by exact Hin. rewrite (IH _ Hl).
      rewrite <- app_assoc. simpl. do 2 f_equal.
      apply filter_agree. intros y Hy.
      rewrite elem_of_app, list_elem_of_singleton.
      split; [tauto|]. intros Hyh [?| ->]; tauto.
Qed.

(** X1: with target [_blank] and a rel attribute that is missing, empty or
    all white space, the rel written is exactly ["noopener noreferrer"]. *)
Theorem hardenRel_without_rel a :
  Js.toLowerCase (or_empty (getAttribute "target" a)) = "_blank" ->
  all_chars is_space (or_empty (getAttribute "rel" a)) ->
  getAttribute "rel" (hardenRel a) = Some "noopener noreferrer".
Proof.
  intros Ht Hr. rewrite (hardenRel_writes a Ht). unfold hardened.
  rewrite rel_tokens_blank by (apply toLowerCase_blank, Hr). reflexivity.
Qed.

Lemma hardenRel_without_rel_witness :
  getAttribute "rel" a_blank_only = None /\
  getAttribute "rel" (hardenRel a_blank_only) = Some "noopener noreferrer".
Proof.
  split; [reflexivity|].
  apply (hardenRel_without_rel a_blank_only); [reflexivity | exact I].
Defined.

(** X2: with target [_blank], when the tokens of the previous rel (in lower
    case) are pairwise distinct, they are kept in their order and the
    required tokens that were missing follow them, noopener before
    noreferrer. *)
Theorem hardenRel_keeps_order a :
  Js.toLowerCase (or_empty (getAttribute "target" a)) = "_blank" ->
  let old := rel_tokens (Js.toLowerCase (or_empty (getAttribute "rel" a))) in
  NoDup old ->
  rel_tokens (or_empty (getAttribute "rel" (hardenRel a)))
  = (old ++ filter (fun x => x ∉ old) needed)%list.
Proof.
  intros Ht old Hnd. rewrite (hardenRel_writes a Ht). simpl or_empty.
  rewrite rel_tokens_join by apply hardened_only_tokens.
  unfold hardened. fold old. rewrite set_from_NoDup by exact Hnd.
  apply foldl_set_add_filter.
  repeat constructor; rewrite ?elem_of_cons, ?elem_of_nil;
    intros H; repeat destruct H as [H|H]; discriminate || done.
Qed.

Lemma hardenRel_keeps_order_witness :
  getAttribute "rel" (hardenRel a_sponsored)
  = Some "noreferrer sponsored noopener" /\
  rel_tokens (or_empty (getAttribute "rel" (hardenRel a_sponsored)))
  = ["noreferrer"; "sponsored"; "noopener"].
Proof.
  split; [vm_compute; reflexivity|].
  refine (hardenRel_keeps_order a_sponsored eq_refl _).
  vm_compute. repeat constructor; rewrite ?elem_of_cons, ?elem_of_nil;
    intros H; repeat destruct H as [H|H]; discriminate || done.
Defined.

(** X3: with target [_blank], the rel value written is in normal form: it
    is in lower case and it is its own tokens joined by single spaces. *)
Theorem hardenRel_normal_form a :
  Js.toLowerCase (or_empty (getAttribute "target" a)) = "_blank" ->
  let v := or_empty (getAttribute "rel" (hardenRel a)) in
  Js.toLowerCase v = v /\ Js.join " " (rel_tokens v) = v.
Proof.
  intros Ht v. unfold v. rewrite (hardenRel_writes a Ht). simpl or_empty.
  split.
  - apply toLowerCase_fixed, join_is_lower, hardened_only_lower.
  - rewrite rel_tokens_join by apply hardened_only_tokens. reflexivity.
Qed.

Lemma hardenRel_normal_form_witness :
  or_empty (getAttribute "rel" (hardenRel a_sponsored))
  = "noreferrer sponsored noopener" /\
  Js.join " " (rel_tokens (or_empty (getAttribute "rel" (hardenRel a_sponsored))))
  = or_empty (getAttribute "rel" (hardenRel a_sponsored)).
Proof.
  split; [vm_compute; reflexivity|].
  exact (proj2 (hardenRel_normal_form a_sponsored eq_refl)).
Defined.

(** ** More on the classification of the href *)

Lemma trimStart_blank s : all_chars is_space s -> Js.trimStart s = "".
Proof.
  induction s as [|c s IH]; [reflexivity|]. intros [Hc Hs]. simpl.
  rewrite Hc. apply IH, Hs.
Qed.

Lemma trimStart_pad w s :
  all_chars is_space w -> Js.trimStart (w +:+ s) = Js.trimStart s.
Proof.
  induction w as [|c w IH]; [reflexivity|]. intros [Hc Hw].
  rewrite append_cons. simpl. rewrite Hc. apply IH, Hw.
Qed.

Lemma trimEnd_blank s : all_chars is_space s -> Js.trimEnd s = "".
Proof.
  induction s as [|c s IH]; [reflexivity|]. intros [Hc Hs]. simpl.
  rewrite (IH Hs), Hc. reflexivity.
Qed.

Lemma trimEnd_pad s w :
  all_chars is_space w -> Js.trimEnd (s +:+ w) = Js.trimEnd s.
Proof.
  intros Hw. induction s as [|c s IH].
  - rewrite append_nil. apply trimEnd_blank, Hw.
  - rewrite append_cons. simpl. rewrite IH. reflexivity.
Qed.

Lemma trim_pad_end s w :
  all_chars is_space w -> Js.trim (s +:+ w) = Js.trim s.
Proof.
  intros Hw. unfold Js.trim. induction s as [|c s IH].
  - rewrite append_nil, (trimStart_blank w Hw). reflexivity.
  - rewrite append_cons. simpl. destruct (Js.isWhiteSpace c); [exact IH|].
    rewrite <- append_cons. apply trimEnd_pad, Hw.
Qed.

Lemma trim_pad w1 s w2 :
  all_chars is_space w1 -> all_chars is_space w2 ->
  Js.trim (w1 +:+ s +:+ w2) = Js.trim s.
Proof.
  intros H1 H2. unfold Js.trim at 1. rewrite trimStart_pad by exact H1.
  apply (trim_pad_end s w2 H2).
Qed.

Lemma trimStart_toLowerCase s :
  Js.trimStart (Js.toLowerCase s) = Js.toLowerCase (Js.trimStart s).
Proof.
  induction s as [|c s IH]; [reflexivity|]. simpl.
  rewrite isWhiteSpace_lowerChar. destruct (Js.isWhiteSpace c); [exact IH|].
  reflexivity.
Qed.

Lemma trimEnd_toLowerCase s :
  Js.trimEnd (Js.toLowerCase s) = Js.toLowerCase (Js.trimEnd s).
Proof.
  induction s as [|c s IH]; [reflexivity|]. simpl.
  rewrite IH, isWhiteSpace_lowerChar.
  destruct (Js.trimEnd s); simpl; [|reflexivity].
  destruct (Js.isWhiteSpace c); reflexivity.
Qed.

Lemma trim_toLowerCase s :
  Js.trim (Js.toLowerCase s) = Js.toLowerCase (Js.trim s).
Proof.
  unfold Js.trim. rewrite trimStart_toLowerCase. apply trimEnd_toLowerCase.
Qed.

(** X4: an href that is missing, empty or all white space is invalid, so a
    pass gives the anchor ["#"] if it has a button class and ["#current"]
    if it has none. *)
Theorem blank_href_rewritten a :
  all_chars is_space (or_empty (getAttribute "href" a)) ->
  invalid_href a /\
  getAttribute "href" (sanitizeOne a)
  = Some (if isButtony a then "#" else "#current").
Proof.
  intros Hb.
  assert (Hi : invalid_href a).
  { left. unfold rawHref, Js.trim.
    rewrite (trimStart_blank _ Hb). reflexivity. }
  split; [exact Hi|]. apply isInvalidHref_spec in Hi.
  destruct (isButtony a) eqn:Eb.
  - rewrite sanitizeOne_button by (rewrite ?Hi; done).
    apply button_attributes.
  - rewrite sanitizeOne_plain_invalid by assumption.
    apply getAttribute_set_eq.
Qed.

Lemma blank_href_rewritten_witness :
  getAttribute "href" a_spaces = Some "   " /\
  getAttribute "href" (sanitizeOne a_spaces) = Some "#current".
Proof.
  split; [reflexivity|].
  refine (proj2 (blank_href_rewritten a_spaces _)).
  repeat split.
Defined.

(** X5: white space around the href and the case of its letters play no
    part in the classification: two anchors whose hrefs differ only in
    these have the same trimmed lower-case href and the same verdict. *)
Theorem href_padding_and_case a b h h' w1 w2 :
  getAttribute "href" a = Some h ->
  getAttribute "href" b = Some (w1 +:+ h' +:+ w2) ->
  Js.toLowerCase h' = Js.toLowerCase h ->
  all_chars is_space w1 -> all_chars is_space w2 ->
  rawHref b = rawHref a /\ isInvalidHref b = isInvalidHref a.
Proof.
  intros Ha Hb Hc H1 H2.
  assert (Hr : rawHref b = rawHref a).
  { unfold rawHref. rewrite Ha, Hb. simpl or_empty.
    rewrite trim_pad by assumption.
    rewrite <- !trim_toLowerCase, Hc. reflexivity. }
  split; [exact Hr|]. unfold isInvalidHref. rewrite Hr. reflexivity.
Qed.

Lemma href_padding_and_case_witness :
  rawHref a_void = rawHref a_top /\ isInvalidHref a_void = isInvalidHref a_top.
Proof.
  apply (href_padding_and_case a_top a_void "javascript:void(0);"
           "JavaScript:Void(0);" " " " "); try reflexivity; repeat split.
Defined.

(** X6: an onclick attribute whose value is empty does not count as an
    onclick: with a valid href the anchor is ordinary, button class or not,
    and gets the rel hardening only. *)
Theorem empty_onclick_ignored a :
  getAttribute "onclick" a = Some "" -> ~ invalid_href a ->
  sanitizeOne a = hardenRel a.
Proof.
  intros Ho Hv. rewrite <- isInvalidHref_spec in Hv.
  apply not_true_is_false in Hv.
  apply sanitizeOne_ordinary; [exact Hv|].
  unfold hasOnclick. rewrite Ho. reflexivity.
Qed.

Lemma empty_onclick_ignored_witness :
  getAttribute "onclick" a_empty_onclick = Some "" /\
  has_button_class a_empty_onclick /\
  sanitizeOne a_empty_onclick = a_empty_onclick.
Proof.
  split; [reflexivity|]. split.
  - exists "darkmode_switchbutton". split; left.
  - refine (empty_onclick_ignored a_empty_onclick eq_refl _).
    intros [Hi|Hi]; [discriminate|]. vm_compute in Hi.
    repeat (apply elem_of_cons in Hi as [Hi|Hi]; [discriminate|]).
    by apply elem_of_nil in Hi.
Defined.

(** X7: a pass writes no attribute other than rel, href, role and
    tabindex, writes rel only when the target is [_blank], leaves the class
    list alone, and keeps every listener the anchor had, in order. *)
Theorem sanitizeOne_writes_only a :
  (forall n, n ∉ ["rel"; "href"; "role"; "tabindex"] ->
             getAttribute n (sanitizeOne a) = getAttribute n a) /\
  (Js.toLowerCase (or_empty (getAttribute "target" a)) <> "_blank" ->
   getAttribute "rel" (sanitizeOne a) = getAttribute "rel" a) /\
  classList (sanitizeOne a) = classList a /\
  listeners a `prefix_of` listeners (sanitizeOne a).
Proof.
  split; [|split; [|split]].
  - intros n Hn. apply sanitizeOne_frame; intros ->; apply Hn;
      rewrite !elem_of_cons; tauto.
  - intros Ht.
    destruct (sanitizeOne_cases a) as [-> | [-> | ->]];
      rewrite ?getAttribute_button, ?getAttribute_set_ne by discriminate;
      rewrite (hardenRel_not_blank a Ht); reflexivity.
  - apply sanitizeOne_classList.
  - rewrite sanitizeOne_listeners. by eexists.
Qed.

(** X8: after a pass the href of an anchor is invalid only if the anchor is
    button-like, a rewrite candidate with a button class, whose href is
    then ["#"]; every other anchor ends with a valid href. *)
Theorem sanitizeOne_leaves_valid a :
  invalid_href (sanitizeOne a)
  <-> rewrite_candidate a /\ has_button_class a.
Proof.
  rewrite <- isInvalidHref_spec, <- rewrite_candidate_spec, <- isButtony_spec.
  rewrite sanitizeOne_by_category.
  destruct (isInvalidHref a || hasOnclick a) eqn:Ec,
    (isButtony a) eqn:Eb; simpl.
  - split; [auto|]. intros _. unfold isInvalidHref, rawHref.
    destruct (button_attributes (hardenRel a)) as (-> & _). reflexivity.
  - destruct (isInvalidHref a) eqn:Ei.
    + unfold isInvalidHref, rawHref. rewrite getAttribute_set_eq. simpl.
      intuition discriminate.
    + rewrite (isInvalidHref_href (hardenRel a) a)
        by (apply hardenRel_other; discriminate).
      rewrite Ei. intuition discriminate.
  - apply orb_false_iff in Ec as [Ei _]. rewrite Ei.
    rewrite (isInvalidHref_href (hardenRel a) a)
      by (apply hardenRel_other; discriminate).
    rewrite Ei. intuition discriminate.
  - apply orb_false_iff in Ec as [Ei _]. rewrite Ei.
    rewrite (isInvalidHref_href (hardenRel a) a)
      by (apply hardenRel_other; discriminate).
    rewrite Ei. intuition discriminate.
Qed.

Lemma iter_sanitizeOne_bound k a :
  bound_by_pass (Nat.iter k sanitizeOne a) = bound_by_pass a.
Proof.
  induction k as [|k IH]; [reflexivity|]. simpl.
  destruct (sanitizeOne_twice_attrs (Nat.iter k sanitizeOne a)) as [_ Hb].
  rewrite Hb. exact IH.
Qed.

(** X9: however many passes run over an anchor, its attributes are those
    of the first pass; each pass over a button-like anchor appends one more
    click listener and one more keydown listener. *)
Theorem sanitizeOne_passes k a :
  attrs (Nat.iter (S k) sanitizeOne a) = attrs (sanitizeOne a) /\
  listeners (Nat.iter k sanitizeOne a)
  = (listeners a ++ concat (replicate k (bound_by_pass a)))%list.
Proof.
  split.
  - induction k as [|k IH]; [reflexivity|].
    change (Nat.iter (S (S k)) sanitizeOne a)
      with (sanitizeOne (sanitizeOne (Nat.iter k sanitizeOne a))).
    destruct (sanitizeOne_twice_attrs (Nat.iter k sanitizeOne a)) as [-> _].
    exact IH.
  - induction k as [|k IH]; simpl; [by rewrite app_nil_r|].
    rewrite sanitizeOne_listeners, IH, iter_sanitizeOne_bound.
    rewrite <- app_assoc. f_equal.
    clear IH. induction k as [|k IHk]; simpl; [by rewrite app_nil_r|].
    rewrite <- app_assoc, IHk. reflexivity.
Qed.

(** ** More on the click listener *)

Lemma click_handler_branch win a s :
  click_handler win a s
  = run_body (match first_tag a with
              | Some t => branch win t
              | None => skip
              end) (mkSt (page s) (flag_after a s)).
Proof.
  unfold click_handler, run_body. rewrite click_body_dispatch.
  unfold dispatch_spec. rewrite seq_prevent_step. reflexivity.
Qed.

(** X10: the two tables of the script agree: an anchor has a class of
    BUTTONY_CLASSES exactly when the click listener has a branch for it. *)
Theorem button_classes_have_branches a :
  isButtony a = true <-> is_Some (first_tag a).
Proof.
  unfold isButtony, first_tag, priority, tag_matches, tag_classes,
    BUTTONY_CLASSES. simpl.
  destruct (contains "darkmode_switchbutton" a), (contains "asideSwitch" a),
    (contains "commentBarrage" a), (contains "console_switchbutton" a),
    (contains "banner-button" a), (contains "totopbtn" a),
    (contains "randomPost_button" a), (contains "randomPost" a),
    (contains "site-page" a); simpl;
    (split; [ intros H; try discriminate H; eexists; reflexivity
            | intros [t Ht]; try discriminate Ht; reflexivity ]).
Qed.



(** X12: the totop branch asks for a smooth scroll to the top; if that
    call throws it asks for an instant scroll on the page the failed call
    left, and an error of this second call is not caught. *)
Theorem click_totop win a s :
  first_tag a = Some totop ->
  click_handler win a s
  = match scrollTo win (ScrollOptions 0 true) (page s) with
    | Returned p => Done (mkSt p (flag_after a s))
    | Threw p1 =>
        match scrollTo win (ScrollXY 0 0) p1 with
        | Returned p => Done (mkSt p (flag_after a s))
        | Threw p => Raised (mkSt p (flag_after a s))
        end
    end.
Proof.
  intros Ht. rewrite click_handler_branch, Ht. simpl.
  unfold run_body, totop_branch, seq, try_catch, call, ret. simpl.
  destruct (scrollTo win (ScrollOptions 0 true) (page s)) as [p|p1];
    [reflexivity|]. simpl.
  destruct (scrollTo win (ScrollXY 0 0) p1); reflexivity.
Qed.

Lemma click_totop_witness :
  first_tag (sanitizeOne a_top) = Some totop /\
  click_handler failing_window (sanitizeOne a_top) (mkSt page0 false)
  = Done (mkSt (mkPage "https://blog.example/post/" 0 0 []) true).
Proof.
  split; [vm_compute; reflexivity|].
  refine (click_totop failing_window (sanitizeOne a_top) (mkSt page0 false) _).
  vm_compute. reflexivity.
Defined.

Lemma branch_raises_only_totop win t s s' :
  branch win t s = Throw s' -> t = totop.
Proof.
  intros H. destruct t; try reflexivity; exfalso;
    match type of H with
    | branch _ ?t0 _ = _ =>
        assert (Hn : t0 = totop -> instant_scroll_works win)
          by (intros e; discriminate e);
        destruct (branch_returns win t0 Hn s) as [s1 Hs1]
    end;
    rewrite Hs1 in H; discriminate H.
Qed.

(** X13: the click listener ends with an error in one case only: the first
    matching tag is totop and both scroll calls threw. *)
Theorem click_raises_only_totop win a s s' :
  click_handler win a s = Raised s' ->
  first_tag a = Some totop /\
  exists p1, scrollTo win (ScrollOptions 0 true) (page s) = Threw p1 /\
             scrollTo win (ScrollXY 0 0) p1 = Threw (page s').
Proof.
  rewrite click_handler_branch. unfold run_body.
  destruct (first_tag a) as [t|]; [|discriminate].
  destruct (branch win t _) as [s1|s1|s1] eqn:Eb; try discriminate.
  intros [= ->]. pose proof (branch_raises_only_totop _ _ _ _ Eb) as ->.
  split; [reflexivity|]. simpl in Eb.
  unfold totop_branch, seq, try_catch, call, ret in Eb. simpl in Eb.
  destruct (scrollTo win (ScrollOptions 0 true) (page s)) as [p|p1];
    [discriminate|]. simpl in Eb. exists p1. split; [reflexivity|].
  destruct (scrollTo win (ScrollXY 0 0) p1); [discriminate|].
  injection Eb as <-. reflexivity.
Qed.

Lemma click_raises_only_totop_witness :
  click_handler no_scroll_window (sanitizeOne a_top) (mkSt page0 false)
  = Raised (mkSt page0 true) /\
  first_tag (sanitizeOne a_top) = Some totop.
Proof.
  assert (H : click_handler no_scroll_window (sanitizeOne a_top)
                (mkSt page0 false) = Raised (mkSt page0 true))
    by (vm_compute; reflexivity).
  split; [exact H|].
  exact (proj1 (click_raises_only_totop _ _ _ _ H)).
Defined.

Lemma keeps_flag_skip : keeps_flag skip.
Proof. intros s. reflexivity. Qed.

Lemma keeps_flag_ret : keeps_flag ret.
Proof. intros s. reflexivity. Qed.

Lemma keeps_flag_seq b1 b2 : keeps_flag b1 -> keeps_flag b2 -> keeps_flag (b1 >>> b2).
Proof.
  intros H1 H2 s. unfold seq. specialize (H1 s).
  destruct (b1 s) as [s1|s1|s1]; simpl in *; [|exact H1..].
  rewrite (H2 s1). exact H1.
Qed.

Lemma keeps_flag_try b h : keeps_flag b -> keeps_flag h -> keeps_flag (try_catch b h).
Proof.
  intros H1 H2 s. unfold try_catch. specialize (H1 s).
  destruct (b s) as [s1|s1|s1]; simpl in *; [exact H1..|].
  rewrite (H2 s1). exact H1.
Qed.

Lemma keeps_flag_call f : keeps_flag (call f).
Proof. intros s. unfold call. destruct (f (page s)); reflexivity. Qed.

Lemma keeps_flag_return_call_if x : keeps_flag (return_call_if x).
Proof.
  destruct x as [f|]; [|apply keeps_flag_skip].
  apply keeps_flag_seq; [apply keeps_flag_call | apply keeps_flag_ret].
Qed.

Lemma keeps_flag_branch win t : keeps_flag (branch win t).
Proof.
  destruct t; simpl;
    unfold darkmode_branch, asideSwitch_branch, consoleSwitch_branch,
      bannerButton_branch, commentBarrage_branch, totop_branch,
      randomPost_branch, sitePage_branch;
    repeat first
      [ apply keeps_flag_ret | apply keeps_flag_skip
      | apply keeps_flag_return_call_if | apply keeps_flag_call
      | apply keeps_flag_seq | apply keeps_flag_try ].
Qed.

(** X14: whatever branch runs and however it ends, the click listener
    prevents the default action exactly when the href attribute reads ["#"]
    at the time of the click; it never clears a prevention already made. *)
Theorem click_prevents_iff_hash win a s :
  defaultPrevented (result_state (click_handler win a s))
  = defaultPrevented s
    || bool_decide (or_empty (getAttribute "href" a) = "#").
Proof.
  rewrite click_handler_branch. unfold run_body. fold (flag_after a s).
  destruct (first_tag a) as [t|]; [|reflexivity].
  pose proof (keeps_flag_branch win t (mkSt (page s) (flag_after a s))) as H.
  destruct (branch win t _); exact H.
Qed.



Example enter_after_two_passes :
  theme_log (dispatch_keydown themed_window (sanitizeOne a_dark) "Enter" page0)
  = ["navFn.switcharMode"] /\
  length (theme_log (dispatch_keydown themed_window
                       (sanitizeOne (sanitizeOne a_dark)) "Enter" page0)) = 4 /\
  dispatch_keydown themed_window (sanitizeOne a_dark) " " page0 = page0.
Proof. repeat split; vm_compute; reflexivity. Qed.

(** ** The change watcher *)

Lemma forEach_app ids1 ids2 st :
  forEach_sanitizeOne (ids1 ++ ids2) st
  = forEach_sanitizeOne ids2 (forEach_sanitizeOne ids1 st).
Proof. apply foldl_app. Qed.

Lemma on_added_forEach node st :
  on_added node st = forEach_sanitizeOne (added_visits node) st.
Proof.
  destruct node as [d|i ns pre l ch]; [reflexivity|].
  unfold on_added, added_visits. rewrite forEach_app.
  destruct (bool_decide (tagName ns pre l = "A")); reflexivity.
Qed.

Lemma added_nodes_forEach nodes st :
  foldl (fun st n => on_added n st) st nodes
  = forEach_sanitizeOne (flat_map added_visits nodes) st.
Proof.
  revert st. induction nodes as [|n nodes IH]; intros st; [reflexivity|].
  simpl. rewrite IH, on_added_forEach, forEach_app. reflexivity.
Qed.

Lemma observer_forEach muts st :
  observer muts st = forEach_sanitizeOne (batch_visits muts) st.
Proof.
  unfold observer, batch_visits. revert st.
  induction muts as [|m muts IH]; intros st; [reflexivity|].
  simpl. rewrite IH, added_nodes_forEach, forEach_app. reflexivity.
Qed.

Lemma forEach_lookup ids st i :
  forEach_sanitizeOne ids st !! i
  = Nat.iter (visits i ids) sanitizeOne <$> st !! i.
Proof.
  revert st. induction ids as [|j ids IH]; intros st.
  - simpl. by destruct (st !! i).
  - change (forEach_sanitizeOne (j :: ids) st)
      with (forEach_sanitizeOne ids (sanitize_at j st)).
    rewrite IH. unfold sanitize_at. simpl visits.
    destruct (decide (j = i)) as [->|Hne].
    + rewrite lookup_alter_eq. destruct (st !! i) as [a|]; [|reflexivity].
      simpl. f_equal. symmetry. apply (Nat.iter_succ_r _ sanitizeOne a).
    + rewrite lookup_alter_ne by exact Hne. reflexivity.
Qed.

Lemma visits_absent i ids : i ∉ ids -> visits i ids = 0.
Proof.
  induction ids as [|j ids IH]; intros Hi; [reflexivity|]. simpl.
  rewrite decide_False by (intros ->; apply Hi; left).
  apply IH. intros H. apply Hi. by right.
Qed.

Lemma visits_once i ids : NoDup ids -> i ∈ ids -> visits i ids = 1.
Proof.
  induction ids as [|j ids IH]; intros Hnd Hi; [by apply elem_of_nil in Hi|].
  apply NoDup_cons in Hnd as [Hj Hnd]. simpl.
  destruct (decide (j = i)) as [->|Hne].
  - by rewrite visits_absent.
  - apply elem_of_cons in Hi as [->|Hi]; [done|]. by rewrite IH.
Qed.

Lemma forEach_once ids st i :
  NoDup ids ->
  forEach_sanitizeOne ids st !! i
  = if decide (i ∈ ids) then sanitizeOne <$> st !! i else st !! i.
Proof.
  intros Hnd. rewrite forEach_lookup. destruct (decide (i ∈ ids)) as [Hi|Hi].
  - by rewrite visits_once.
  - rewrite visits_absent by exact Hi. by destruct (st !! i).
Qed.

(** The selector ['a'] matches an element exactly when its local name is
    ["a"], in the HTML namespace, in SVG and in any other. *)
Lemma selector_a_local ns l : selector_matches "a" ns l = bool_decide (l = "a").
Proof. destruct ns; reflexivity. Qed.

(** X16: for a batch of mutation records, the observer runs [sanitizeOne]
    on an element once for every call the batch gives rise to: one for an
    added node whose tag name reads ["A"], and one for every element below
    an added node that the selector ['a'] matches, SVG links included.  An
    element no call is made for, a text node among them, is left alone. *)
Theorem observer_visits muts st i :
  observer muts st !! i
  = Nat.iter (visits i (batch_visits muts)) sanitizeOne <$> st !! i.
Proof. rewrite observer_forEach. apply forEach_lookup. Qed.

(** X17: when a subtree is added, the root if its tag name reads ["A"] and
    every element below it that the selector ['a'] matches, at any depth,
    HTML or SVG, go through [sanitizeOne] exactly once, and no other
    element changes.  The identities of the elements of a tree are
    distinct. *)
Theorem on_added_once node st i :
  NoDup (added_visits node) ->
  on_added node st !! i
  = if decide (i ∈ added_visits node) then sanitizeOne <$> st !! i
    else st !! i.
Proof. intros Hnd. rewrite on_added_forEach. apply forEach_once, Hnd. Qed.

Lemma card_visits : NoDup (added_visits card).
Proof.
  vm_compute. repeat constructor; rewrite ?elem_of_cons, ?elem_of_nil;
    intros H; repeat destruct H as [H|H]; discriminate || done.
Qed.

Lemma on_added_once_witness :
  added_visits card = [12; 14; 17] /\
  on_added card card_store !! 14 = Some (sanitizeOne a_top) /\
  on_added card card_store !! 17 = Some (sanitizeOne a_void) /\
  on_added card card_store !! 10 = card_store !! 10.
Proof.
  split; [reflexivity|]. split; [|split].
  - exact (on_added_once card card_store 14 card_visits).
  - exact (on_added_once card card_store 17 card_visits).
  - exact (on_added_once card card_store 10 card_visits).
Defined.




Example nested_reports_bind_twice :
  listeners <$> observer
    [mkMutation [card]; mkMutation [Element 14 HtmlNS None "a" []]]
    card_store !! 14
  = Some [ClickDispatch; KeydownEnter; ClickDispatch; KeydownEnter].
Proof. vm_compute. reflexivity. Qed.

Example tag_names :
  tagName HtmlNS None "a" = "A" /\ tagName SvgNS None "a" = "a" /\
  tagName HtmlNS (Some "x") "a" = "X:A" /\
  selector_matches "a" HtmlNS "A" = false /\ tagName HtmlNS None "A" = "A".
Proof. repeat split. Qed.
